(** * dp-alpha: a shallow embedding of [dp-alpha.cpp]

    The program opens a DRM device, discovers one connected output,
    allocates a dumb buffer, paints a checkerboard with a chosen alpha
    convention and binds the buffer to a CRTC.

    Every library and kernel entry point the program calls is modelled
    as a logged call whose reply is supplied by a [Driver]; the program
    itself is written in a small state-and-exception monad that keeps
    the log of calls, [errno], the two output streams and the pixel
    memory.  C++ object lifetime rules (constructors that throw,
    destructors run at scope exit, member destruction order) are spelled
    out with [finally] and [on_throw]. *)

From Stdlib Require Import ZArith List String Ascii Bool Lia.
Import ListNotations.
Open Scope Z_scope.

(** ** Machine integers and pointers *)

(** [uint32_t] arithmetic wraps modulo 2^32. *)
Definition wrap32 (n : Z) : Z := n mod 2 ^ 32.

(** [1 << i] on a 32-bit [int], used as an unsigned 32-bit mask: defined
    for shift counts 0..31, undefined behaviour beyond. *)
Definition shl1 (i : Z) : option Z :=
  if (0 <=? i) && (i <? 32) then Some (wrap32 (Z.shiftl 1 i)) else None.

(** Pointers are addresses; [nullptr] is 0 and [MAP_FAILED] is [(void * ) -1]. *)
Definition nullptr : Z := 0.
Definition MAP_FAILED : Z := 2 ^ 64 - 1.

Definition O_RDWR : Z := 2.
Definition PROT_READ : Z := 1.
Definition PROT_WRITE : Z := 2.
Definition MAP_SHARED : Z := 1.
(** fourcc code 'A','R','2','4'. *)
Definition DRM_FORMAT_ARGB8888 : Z := 0x34325241.

(** ** libdrm data *)

Inductive drmModeConnection : Type :=
| DRM_MODE_CONNECTED
| DRM_MODE_DISCONNECTED
| DRM_MODE_UNKNOWNCONNECTION.

Definition is_connected (c : drmModeConnection) : bool :=
  match c with DRM_MODE_CONNECTED => true | _ => false end.

(** The fields of [drmModeModeInfo] the program reads, plus the timing
    fields kept as an opaque list. *)
Record drmModeModeInfo : Type := {
  hdisplay : Z;
  vdisplay : Z;
  timing : list Z
}.

(** [drmModeModeInfo _mode = {}] *)
Definition zero_mode : drmModeModeInfo :=
  {| hdisplay := 0; vdisplay := 0; timing := [] |}.

(** [modes] with [count_modes] is a list; an empty list is the null
    [modes] pointer libdrm returns for [count_modes = 0]. *)
Record drmModeConnector : Type := {
  connector_id : Z;
  encoder_id : Z;
  connection : drmModeConnection;
  modes : list drmModeModeInfo
}.

Record drmModeEncoder : Type := {
  enc_encoder_id : Z;
  crtc_id : Z;
  possible_crtcs : Z
}.

(** [connectors]/[count_connectors] and [crtcs]/[count_crtcs]. *)
Record drmModeRes : Type := {
  connectors : list Z;
  crtcs : list Z
}.

(** ** Calls into the kernel and the libraries *)

Inductive call : Type :=
| sys_open (path : string) (flags : Z)
| sys_close (fd : Z)
| ioctl_create_dumb (fd width height bpp : Z)
| drm_add_fb2 (fd width height format handle pitch : Z)
| ioctl_map_dumb (fd handle : Z)
| sys_mmap (length prot flags fd offset : Z)
| sys_munmap (addr length : Z)
| drm_rm_fb (fd fb_id : Z)
| ioctl_destroy_dumb (fd handle : Z)
| drm_get_resources (fd : Z)
| drm_get_connector (fd id : Z)
| drm_free_connector (c : drmModeConnector)
| drm_get_encoder (fd id : Z)
| drm_free_encoder (e : drmModeEncoder)
| drm_free_resources (r : drmModeRes)
| drm_set_crtc (fd crtc fb_id x y conn : Z) (mode : drmModeModeInfo)
| cin_get.

(** What [DRM_IOCTL_MODE_CREATE_DUMB] writes back into the request. *)
Record create_dumb_out : Type := {
  cd_handle : Z;
  cd_pitch : Z;
  cd_size : Z
}.

(** The environment: the reply to every call the program can make.  The
    program issues each acquisition at most once per run, except the
    connector query, whose reply may depend on the loop index. *)
Record Driver : Type := {
  d_errno : call -> Z -> Z;
  d_strerror : Z -> string;
  d_indeterminate : nat -> Z;
  d_open : string -> Z -> Z;
  d_create_dumb : Z -> Z -> Z -> Z -> Z * create_dumb_out;
  d_add_fb2 : Z -> Z -> Z -> Z -> Z -> Z -> Z * Z;
  d_map_dumb : Z -> Z -> Z * Z;
  d_mmap : Z -> Z -> Z -> Z -> Z -> Z;
  d_get_resources : Z -> option drmModeRes;
  d_get_connector : nat -> Z -> Z -> option drmModeConnector;
  d_get_encoder : Z -> Z -> option drmModeEncoder;
  d_set_crtc : Z -> Z -> Z -> Z -> drmModeModeInfo -> Z
}.

(** ** Exceptions *)

Inductive exn : Type :=
| system_error (code : Z) (what_arg : string)
| runtime_error (what_arg : string).

Definition what_arg_of (e : exn) : string :=
  match e with
  | system_error _ m => m
  | runtime_error m => m
  end.

(** [e.what()]: a [system_error] appends the category's message. *)
Definition what (drv : Driver) (e : exn) : string :=
  match e with
  | system_error c m => (m ++ ": " ++ d_strerror drv c)%string
  | runtime_error m => m
  end.

(** ** Program state and the monad *)

Record world : Type := {
  w_trace : list call;
  w_errno : Z;
  w_stdout : string;
  w_stderr : string;
  w_pixels : Z -> Z
}.

(** A computation returns, throws, or has undefined behaviour (a null
    dereference, a store outside a mapping, an out-of-range shift);
    effects done so far stay. *)
Inductive outcome (A : Type) : Type :=
| Ok (a : A)
| Throw (e : exn)
| Undefined.
Arguments Ok {A} a.
Arguments Throw {A} e.
Arguments Undefined {A}.

Definition M (A : Type) : Type := world -> outcome A * world.

Definition ret {A} (a : A) : M A := fun w => (Ok a, w).

Definition bind {A B} (m : M A) (k : A -> M B) : M B :=
  fun w =>
    match m w with
    | (Ok a, w1) => k a w1
    | (Throw e, w1) => (Throw e, w1)
    | (Undefined, w1) => (Undefined, w1)
    end.

Notation "x <- m ;; k" := (bind m (fun x => k))
  (at level 61, m at next level, right associativity).
Notation "m ;; k" := (bind m (fun _ => k))
  (at level 61, right associativity).

Definition throw {A} (e : exn) : M A := fun w => (Throw e, w).
Definition undefined {A} : M A := fun w => (Undefined, w).

(** Run [d] when [m] leaves its scope, normally or by exception. *)
Definition finally {A} (m : M A) (d : M unit) : M A :=
  fun w =>
    match m w with
    | (Ok a, w1) =>
        match d w1 with
        | (Ok _, w2) => (Ok a, w2)
        | (Throw e, w2) => (Throw e, w2)
        | (Undefined, w2) => (Undefined, w2)
        end
    | (Throw e, w1) =>
        match d w1 with
        | (Undefined, w2) => (Undefined, w2)
        | (_, w2) => (Throw e, w2)
        end
    | (Undefined, w1) => (Undefined, w1)
    end.

(** Run [d] only when [m] throws: what a constructor body that throws
    does to the members already constructed. *)
Definition on_throw {A} (m : M A) (d : M unit) : M A :=
  fun w =>
    match m w with
    | (Throw e, w1) =>
        match d w1 with
        | (Undefined, w2) => (Undefined, w2)
        | (_, w2) => (Throw e, w2)
        end
    | r => r
    end.

(** Log a call and let the driver update [errno]. *)
Definition sys (drv : Driver) (c : call) : M unit :=
  fun w =>
    (Ok tt, {| w_trace := w_trace w ++ [c];
               w_errno := d_errno drv c (w_errno w);
               w_stdout := w_stdout w;
               w_stderr := w_stderr w;
               w_pixels := w_pixels w |}).

Definition get_errno : M Z := fun w => (Ok (w_errno w), w).

(** [throw std::system_error(errno, std::system_category(), msg)] *)
Definition throw_errno {A} (msg : string) : M A :=
  e <- get_errno ;; throw (system_error e msg).

Definition cout (s : string) : M unit :=
  fun w =>
    (Ok tt, {| w_trace := w_trace w;
               w_errno := w_errno w;
               w_stdout := (w_stdout w ++ s)%string;
               w_stderr := w_stderr w;
               w_pixels := w_pixels w |}).

Definition cerr (s : string) : M unit :=
  fun w =>
    (Ok tt, {| w_trace := w_trace w;
               w_errno := w_errno w;
               w_stdout := w_stdout w;
               w_stderr := (w_stderr w ++ s)%string;
               w_pixels := w_pixels w |}).

Definition endl : string := String (ascii_of_nat 10) EmptyString.
Definition tab : string := String (ascii_of_nat 9) EmptyString.

Definition when (b : bool) (m : M unit) : M unit :=
  if b then m else ret tt.

(** [try { m } catch (const std::exception& e) { h e }]: every exception
    the program throws derives from [std::exception]. *)
Definition try_catch {A} (m : M A) (h : exn -> M A) : M A :=
  fun w =>
    match m w with
    | (Throw e, w1) => h e w1
    | r => r
    end.

(** ** class autofd *)

Module autofd.

Definition ctor (drv : Driver) (file : string) (flags : Z) : M Z :=
  sys drv (sys_open file flags) ;;
  let fd := d_open drv file flags in
  if fd =? -1 then throw_errno "Failed to open file" else ret fd.

Definition dtor (drv : Driver) (fd : Z) : M unit :=
  sys drv (sys_close fd).

End autofd.

(** ** class DrmBuffer *)

Module DrmBuffer.

Record state : Type := {
  _fd : Z;
  _width : Z;
  _height : Z;
  _format : Z;
  _fb_id : Z;
  _handle : Z;
  _pitch : Z;
  _size : Z;
  _mapped : Z
}.

Definition with_alloc (self : state) (out : create_dumb_out) : state :=
  {| _fd := _fd self; _width := _width self; _height := _height self;
     _format := _format self; _fb_id := _fb_id self;
     _handle := cd_handle out; _pitch := cd_pitch out; _size := cd_size out;
     _mapped := _mapped self |}.

Definition with_fb_id (self : state) (fb : Z) : state :=
  {| _fd := _fd self; _width := _width self; _height := _height self;
     _format := _format self; _fb_id := fb;
     _handle := _handle self; _pitch := _pitch self; _size := _size self;
     _mapped := _mapped self |}.

Definition with_mapped (self : state) (p : Z) : state :=
  {| _fd := _fd self; _width := _width self; _height := _height self;
     _format := _format self; _fb_id := _fb_id self;
     _handle := _handle self; _pitch := _pitch self; _size := _size self;
     _mapped := p |}.

Definition fb_id (self : state) : Z := _fb_id self.

(** [pixels[i] = v] on the memory seen through [(uint32_t * )_mapped],
    indexed in 32-bit words from the start of the mapping. *)
Definition store (pixels : Z -> Z) (i v : Z) : Z -> Z :=
  fun j => if j =? i then v else pixels j.

(** The values a [for (uint32_t k = 0; k < n; k++)] loop runs through. *)
Definition upto (n : Z) : list Z := map Z.of_nat (seq 0 (Z.to_nat n)).

Definition sq_sz : Z := 64.
Definition grey : Z := 0xff808080.
Definition white (premultiplied : bool) : Z :=
  if premultiplied then 0x80808080 else 0x80ffffff.

(** [y * (_pitch / 4) + x] in [uint32_t]. *)
Definition pixel_index (self : state) (x y : Z) : Z :=
  wrap32 (wrap32 (y * (_pitch self / 4)) + x).

(** [((x / sq_sz) + (y / sq_sz)) % 2 ? grey : white] *)
Definition tile_color (premultiplied : bool) (x y : Z) : Z :=
  if negb (wrap32 (x / sq_sz + y / sq_sz) mod 2 =? 0)
  then grey else white premultiplied.

Definition fill_row (self : state) (premultiplied : bool) (y : Z)
    (pixels : Z -> Z) : Z -> Z :=
  fold_left
    (fun px x => store px (pixel_index self x y) (tile_color premultiplied x y))
    (upto (_width self)) pixels.

Definition fill_pixels (self : state) (premultiplied : bool)
    (pixels : Z -> Z) : Z -> Z :=
  fold_left (fun px y => fill_row self premultiplied y px)
    (upto (_height self)) pixels.

(** The store [pixels[i] = v] is made through [_mapped] with no check of
    the pointer or of the index: its behaviour is defined only when
    [_mapped] is a mapping (neither null nor [MAP_FAILED]) and the word
    lies within the [_size] bytes mapped there. *)
Definition in_mapping (self : state) (i : Z) : bool :=
  negb (_mapped self =? nullptr) && negb (_mapped self =? MAP_FAILED)
  && (4 * i + 4 <=? _size self).

(** Whether every store of the two loops is made into the mapping. *)
Definition fill_defined (self : state) : bool :=
  forallb
    (fun y => forallb (fun x => in_mapping self (pixel_index self x y))
                      (upto (_width self)))
    (upto (_height self)).

(** The two loops.  The result is undefined as soon as one store misses
    the mapping; the memory component is that of all the stores of the
    loops in either case, and means nothing once the behaviour is
    undefined. *)
Definition fill_chessboard (self : state) (premultiplied : bool) : M unit :=
  fun w =>
    (if fill_defined self then Ok tt else Undefined,
     {| w_trace := w_trace w;
        w_errno := w_errno w;
        w_stdout := w_stdout w;
        w_stderr := w_stderr w;
        w_pixels := fill_pixels self premultiplied (w_pixels w) |}).

(** The stores of [fill_chessboard] in program order, as (index, value). *)
Definition fill_writes (self : state) (premultiplied : bool) : list (Z * Z) :=
  flat_map
    (fun y => map (fun x => (pixel_index self x y, tile_color premultiplied x y))
                  (upto (_width self)))
    (upto (_height self)).

Definition create (drv : Driver) (self : state) : M state :=
  (* Create dumb buffer *)
  sys drv (ioctl_create_dumb (_fd self) (_width self) (_height self) 32) ;;
  let '(r1, create_req) :=
    d_create_dumb drv (_fd self) (_width self) (_height self) 32 in
  if r1 <? 0 then throw_errno "Failed to create dumb buffer" else
  let self := with_alloc self create_req in
  (* Create framebuffer *)
  sys drv (drm_add_fb2 (_fd self) (_width self) (_height self)
             (_format self) (_handle self) (_pitch self)) ;;
  let '(r2, fb) :=
    d_add_fb2 drv (_fd self) (_width self) (_height self)
      (_format self) (_handle self) (_pitch self) in
  if r2 <? 0 then
    sys drv (ioctl_destroy_dumb (_fd self) (_handle self)) ;;
    throw_errno "Failed to add framebuffer"
  else
  let self := with_fb_id self fb in
  (* Map the buffer *)
  sys drv (ioctl_map_dumb (_fd self) (_handle self)) ;;
  let '(r3, offset) := d_map_dumb drv (_fd self) (_handle self) in
  if r3 <? 0 then
    sys drv (drm_rm_fb (_fd self) (_fb_id self)) ;;
    sys drv (ioctl_destroy_dumb (_fd self) (_handle self)) ;;
    throw_errno "Failed to map dumb buffer"
  else
  sys drv (sys_mmap (_size self) (Z.lor PROT_READ PROT_WRITE) MAP_SHARED
             (_fd self) offset) ;;
  let self :=
    with_mapped self
      (d_mmap drv (_size self) (Z.lor PROT_READ PROT_WRITE) MAP_SHARED
         (_fd self) offset) in
  if _mapped self =? MAP_FAILED then
    sys drv (drm_rm_fb (_fd self) (_fb_id self)) ;;
    sys drv (ioctl_destroy_dumb (_fd self) (_handle self)) ;;
    throw_errno "Failed to mmap framebuffer"
  else ret self.

Definition cleanup (drv : Driver) (self : state) : M unit :=
  when (negb (_mapped self =? nullptr) && negb (_mapped self =? MAP_FAILED))
       (sys drv (sys_munmap (_mapped self) (_size self))) ;;
  when (negb (_fb_id self =? 0))
       (sys drv (drm_rm_fb (_fd self) (_fb_id self))) ;;
  when (negb (_handle self =? 0))
       (sys drv (ioctl_destroy_dumb (_fd self) (_handle self))).

(** The object before the constructor body runs: [_fb_id] and [_mapped]
    have default member initialisers, [_handle], [_pitch] and [_size]
    have none and hold whatever the storage held. *)
Definition fresh (drv : Driver) (fd width height : Z) : state :=
  {| _fd := fd; _width := width; _height := height;
     _format := DRM_FORMAT_ARGB8888; _fb_id := 0;
     _handle := d_indeterminate drv 0%nat;
     _pitch := d_indeterminate drv 1%nat;
     _size := d_indeterminate drv 2%nat;
     _mapped := nullptr |}.

(** [DrmBuffer(int fd, uint32_t width, uint32_t height)]; when [create]
    throws the destructor does not run. *)
Definition ctor (drv : Driver) (fd width height : Z) : M state :=
  create drv (fresh drv fd width height).

(** [~DrmBuffer()] *)
Definition dtor (drv : Driver) (self : state) : M unit :=
  cleanup drv self.

End DrmBuffer.

(** ** class DrmDevice *)

Module DrmDevice.

Record state : Type := {
  _fd : Z;
  _connector : option drmModeConnector;
  _encoder : option drmModeEncoder;
  _resources : option drmModeRes;
  _mode : drmModeModeInfo;
  _crtc_id : Z
}.

(** [DrmDevice] after its member initialisers. *)
Definition fresh (fd : Z) : state :=
  {| _fd := fd; _connector := None; _encoder := None; _resources := None;
     _mode := zero_mode; _crtc_id := 0 |}.

(** The connector loop of [initialize], from index [i] on; returns the
    final value of [_connector].  Reading [_connector->connection]
    through a null pointer is undefined. *)
Fixpoint find_connector (drv : Driver) (fd : Z) (i : nat) (ids : list Z)
    : M (option drmModeConnector) :=
  match ids with
  | [] => ret None
  | id :: rest =>
      sys drv (drm_get_connector fd id) ;;
      match d_get_connector drv i fd id with
      | None => undefined
      | Some c =>
          if is_connected (connection c) then ret (Some c)
          else
            sys drv (drm_free_connector c) ;;
            find_connector drv fd (S i) rest
      end
  end.

(** [_mode = _connector->modes[0]] *)
Definition preferred_mode (c : drmModeConnector) : M drmModeModeInfo :=
  match modes c with
  | [] => undefined
  | m :: _ => ret m
  end.

(** The CRTC loop of [initialize], from index [i] on; returns the final
    value of [_crtc_id], which is 0 on entry. *)
Fixpoint find_crtc (possible : Z) (i : Z) (ids : list Z) : M Z :=
  match ids with
  | [] => ret 0
  | id :: rest =>
      match shl1 i with
      | None => undefined
      | Some bit =>
          if negb (Z.land possible bit =? 0) then ret id
          else find_crtc possible (i + 1) rest
      end
  end.

(** [_crtc_id = _encoder->crtc_id; if (!_crtc_id) { ... }] *)
Definition resolve_crtc (enc : drmModeEncoder) (res : drmModeRes) : M Z :=
  if crtc_id enc =? 0 then find_crtc (possible_crtcs enc) 0 (crtcs res)
  else ret (crtc_id enc).

(** The last part of [initialize], "Find encoder and CRTC", for the
    connector and mode chosen before it; it completes the object. *)
Definition find_encoder_and_crtc (drv : Driver) (self : state)
    (res : drmModeRes) (conn : drmModeConnector) (mode : drmModeModeInfo)
    : M state :=
  sys drv (drm_get_encoder (_fd self) (encoder_id conn)) ;;
  match d_get_encoder drv (_fd self) (encoder_id conn) with
  | None => throw (runtime_error "Failed to get encoder")
  | Some enc =>
      crtc <- resolve_crtc enc res ;;
      if crtc =? 0 then throw (runtime_error "Failed to find CRTC")
      else ret {| _fd := _fd self; _connector := Some conn;
                  _encoder := Some enc; _resources := Some res;
                  _mode := mode; _crtc_id := crtc |}
  end.

Definition initialize (drv : Driver) (self : state) : M state :=
  (* Get DRM resources *)
  sys drv (drm_get_resources (_fd self)) ;;
  match d_get_resources drv (_fd self) with
  | None => throw (runtime_error "Failed to get DRM resources")
  | Some res =>
      (* Find first connected connector *)
      c <- find_connector drv (_fd self) 0 (connectors res) ;;
      match c with
      | None => throw (runtime_error "No connected connector found")
      | Some conn =>
          (* Get the preferred mode *)
          mode <- preferred_mode conn ;;
          (* Find encoder and CRTC *)
          find_encoder_and_crtc drv self res conn mode
      end
  end.

Definition cleanup (drv : Driver) (self : state) : M unit :=
  match _encoder self with
  | Some e => sys drv (drm_free_encoder e)
  | None => ret tt
  end ;;
  match _connector self with
  | Some c => sys drv (drm_free_connector c)
  | None => ret tt
  end ;;
  match _resources self with
  | Some r => sys drv (drm_free_resources r)
  | None => ret tt
  end.

(** [DrmDevice(const char* device_path)]: the member [_fd] is
    constructed first; when [initialize] throws, the destructor body
    does not run and only the constructed member [_fd] is destroyed. *)
Definition ctor (drv : Driver) (device_path : string) : M state :=
  fd <- autofd.ctor drv device_path O_RDWR ;;
  on_throw (initialize drv (fresh fd)) (autofd.dtor drv fd).

(** [~DrmDevice()]: the body, then the members in reverse declaration
    order; [_fd] is declared first, so it is destroyed last. *)
Definition dtor (drv : Driver) (self : state) : M unit :=
  cleanup drv self ;;
  autofd.dtor drv (_fd self).

Definition fd (self : state) : Z := _fd self.

Definition create_buffer (drv : Driver) (self : state) : M DrmBuffer.state :=
  DrmBuffer.ctor drv (_fd self) (hdisplay (_mode self)) (vdisplay (_mode self)).

Definition set_crtc (drv : Driver) (self : state) (fb_id : Z) : M unit :=
  match _connector self with
  | None => undefined
  | Some conn =>
      sys drv (drm_set_crtc (_fd self) (_crtc_id self) fb_id 0 0
                 (connector_id conn) (_mode self)) ;;
      if d_set_crtc drv (_fd self) (_crtc_id self) fb_id
           (connector_id conn) (_mode self) <? 0
      then throw_errno "Failed to set CRTC"
      else ret tt
  end.

End DrmDevice.

(** ** usage and main *)

Definition usage : M Z :=
  cout ("Usage: dp-alpha p|s" ++ endl)%string ;;
  cout (tab ++ "p: use premultiplied alpha" ++ endl)%string ;;
  cout (tab ++ "s: use straight alpha" ++ endl)%string ;;
  ret (-1).

(** [argv[1][0]]: the first character, NUL for the empty string. *)
Definition first_char (s : string) : ascii :=
  match s with
  | EmptyString => zero
  | String c _ => c
  end.

Definition alpha_name (premultiplied : bool) : string :=
  if premultiplied then "premultiplied" else "straight".

(** The body of the [try] block. *)
Definition core (drv : Driver) (premultiplied : bool) : M unit :=
  drm_device <- DrmDevice.ctor drv "/dev/dri/card0" ;;
  finally
    (buffer <- DrmDevice.create_buffer drv drm_device ;;
     finally
       (DrmBuffer.fill_chessboard buffer premultiplied ;;
        DrmDevice.set_crtc drv drm_device (DrmBuffer.fb_id buffer) ;;
        cout ("If you see a chessboard pattern, "
                ++ alpha_name premultiplied
                ++ " alpha blending mode is incorrect." ++ endl)%string ;;
        sys drv cin_get)
       (DrmBuffer.dtor drv buffer))
    (DrmDevice.dtor drv drm_device).

(** The alpha convention selected by [argv], if any. *)
Definition parse_args (argv : list string) : option bool :=
  if negb (Z.of_nat (List.length argv) =? 2) then None
  else
    let c := first_char (nth 1 argv EmptyString) in
    if Ascii.eqb c "p" then Some true
    else if Ascii.eqb c "s" then Some false
    else None.

Definition main (drv : Driver) (argv : list string) : M Z :=
  match parse_args argv with
  | None => usage
  | Some premultiplied =>
      try_catch
        (core drv premultiplied ;; ret 0)
        (fun e => cerr ("Error: " ++ what drv e ++ endl)%string ;; ret (-1))
  end.

(** The status the parent process sees for [main]'s return value. *)
Definition exit_status (r : Z) : Z := r mod 256.

(** ** Vocabulary for the statements *)

(** Replaying a list of stores on the pixel memory. *)
Definition replay (writes : list (Z * Z)) (pixels : Z -> Z) : Z -> Z :=
  fold_left (fun px iv => DrmBuffer.store px (fst iv) (snd iv)) writes pixels.

(** The kernel-side resources a Pixel Surface holds. *)
Inductive resource : Type :=
| Buffer (fd handle : Z)
| Framebuffer (fd fb_id : Z)
| Mapping (addr len : Z).

Definition resource_eqb (a b : resource) : bool :=
  match a, b with
  | Buffer f h, Buffer f' h' => (f =? f') && (h =? h')
  | Framebuffer f i, Framebuffer f' i' => (f =? f') && (i =? i')
  | Mapping p n, Mapping p' n' => (p =? p') && (n =? n')
  | _, _ => false
  end.

(** The resource a call acquires under [drv], when the call succeeds.
    The map-descriptor request acquires nothing that has to be released. *)
Definition acquires (drv : Driver) (c : call) : option resource :=
  match c with
  | ioctl_create_dumb fd w h bpp =>
      let '(r, out) := d_create_dumb drv fd w h bpp in
      if r <? 0 then None else Some (Buffer fd (cd_handle out))
  | drm_add_fb2 fd w h fmt handle pitch =>
      let '(r, fb) := d_add_fb2 drv fd w h fmt handle pitch in
      if r <? 0 then None else Some (Framebuffer fd fb)
  | sys_mmap len prot flags fd off =>
      let p := d_mmap drv len prot flags fd off in
      if p =? MAP_FAILED then None else Some (Mapping p len)
  | _ => None
  end.

Definition releases (c : call) : option resource :=
  match c with
  | sys_munmap p len => Some (Mapping p len)
  | drm_rm_fb fd fb => Some (Framebuffer fd fb)
  | ioctl_destroy_dumb fd h => Some (Buffer fd h)
  | _ => None
  end.

(** Run a log of calls against a stack of held resources: an
    acquisition pushes, a release must name the resource on top of the
    stack and pops it.  [None] means a release out of order, of a
    resource not held, or a second release. *)
Fixpoint lifo (drv : Driver) (t : list call) (held : list resource)
    : option (list resource) :=
  match t with
  | [] => Some held
  | c :: t' =>
      match releases c with
      | Some r =>
          match held with
          | top :: held' =>
              if resource_eqb r top then lifo drv t' held' else None
          | [] => None
          end
      | None =>
          match acquires drv c with
          | Some r => lifo drv t' (r :: held)
          | None => lifo drv t' held
          end
      end
  end.

Definition is_acquisition (c : call) : bool :=
  match c with
  | ioctl_create_dumb _ _ _ _ | drm_add_fb2 _ _ _ _ _ _
  | ioctl_map_dumb _ _ | sys_mmap _ _ _ _ _ => true
  | _ => false
  end.

Definition is_close (c : call) : bool :=
  match c with sys_close _ => true | _ => false end.

(** The replies the four acquisition steps of [DrmBuffer::create] get. *)
Section Replies.
Variables (drv : Driver) (fd width height : Z).

Definition alloc_reply : Z * create_dumb_out :=
  d_create_dumb drv fd width height 32.
Definition alloc_handle : Z := cd_handle (snd alloc_reply).
Definition alloc_pitch : Z := cd_pitch (snd alloc_reply).
Definition alloc_size : Z := cd_size (snd alloc_reply).
Definition register_reply : Z * Z :=
  d_add_fb2 drv fd width height DRM_FORMAT_ARGB8888 alloc_handle alloc_pitch.
Definition map_reply : Z * Z := d_map_dumb drv fd alloc_handle.
Definition mmap_reply : Z :=
  d_mmap drv alloc_size (Z.lor PROT_READ PROT_WRITE) MAP_SHARED fd
    (snd map_reply).

Definition call_alloc : call := ioctl_create_dumb fd width height 32.
Definition call_register : call :=
  drm_add_fb2 fd width height DRM_FORMAT_ARGB8888 alloc_handle alloc_pitch.
Definition call_map : call := ioctl_map_dumb fd alloc_handle.
Definition call_mmap : call :=
  sys_mmap alloc_size (Z.lor PROT_READ PROT_WRITE) MAP_SHARED fd
    (snd map_reply).
Definition call_rm_fb : call := drm_rm_fb fd (snd register_reply).
Definition call_destroy : call := ioctl_destroy_dumb fd alloc_handle.
Definition call_munmap : call := sys_munmap mmap_reply alloc_size.

(** The surface a fully successful [create] leaves behind. *)
Definition live_surface : DrmBuffer.state :=
  {| DrmBuffer._fd := fd; DrmBuffer._width := width;
     DrmBuffer._height := height;
     DrmBuffer._format := DRM_FORMAT_ARGB8888;
     DrmBuffer._fb_id := snd register_reply;
     DrmBuffer._handle := alloc_handle;
     DrmBuffer._pitch := alloc_pitch;
     DrmBuffer._size := alloc_size;
     DrmBuffer._mapped := mmap_reply |}.

End Replies.

(** ** A concrete driver for running the model

    One connected connector behind one disconnected one, a 128x96 mode, an
    encoder without a bound CRTC whose mask selects CRTC index 0.  The
    [failure] argument names the call that is made to fail; the last two
    make the second connector query return null, and the connected
    connector advertise no mode. *)

Inductive failure : Type :=
| no_failure | fail_open | fail_resources | fail_display | fail_encoder
| fail_crtc | fail_alloc | fail_register | fail_map | fail_mmap | fail_bind
| null_connector | no_modes.

Definition failure_eqb (a b : failure) : bool :=
  match a, b with
  | no_failure, no_failure | fail_open, fail_open
  | fail_resources, fail_resources | fail_display, fail_display
  | fail_encoder, fail_encoder | fail_crtc, fail_crtc
  | fail_alloc, fail_alloc | fail_register, fail_register
  | fail_map, fail_map | fail_mmap, fail_mmap | fail_bind, fail_bind
  | null_connector, null_connector | no_modes, no_modes => true
  | _, _ => false
  end.

Definition demo_mode : drmModeModeInfo :=
  {| hdisplay := 128; vdisplay := 96; timing := [60] |}.

Definition demo_unplugged : drmModeConnector :=
  {| connector_id := 40; encoder_id := 0;
     connection := DRM_MODE_DISCONNECTED; modes := [] |}.

Definition demo_connector (f : failure) : drmModeConnector :=
  {| connector_id := 42; encoder_id := 39;
     connection := if failure_eqb f fail_display
                   then DRM_MODE_UNKNOWNCONNECTION else DRM_MODE_CONNECTED;
     modes := if failure_eqb f no_modes then [] else [demo_mode] |}.

Definition demo_encoder (f : failure) : drmModeEncoder :=
  {| enc_encoder_id := 39; crtc_id := 0;
     possible_crtcs := if failure_eqb f fail_crtc then 0 else 1 |}.

Definition demo_resources : drmModeRes :=
  {| connectors := [40; 42]; crtcs := [38; 37] |}.

Definition ENOENT : Z := 2.
Definition EINVAL : Z := 22.

Definition demo_driver (f : failure) : Driver :=
  {| d_errno := fun c e =>
       match c, f with
       | sys_open _ _, fail_open => ENOENT
       | ioctl_create_dumb _ _ _ _, fail_alloc => EINVAL
       | drm_add_fb2 _ _ _ _ _ _, fail_register => EINVAL
       | ioctl_map_dumb _ _, fail_map => EINVAL
       | sys_mmap _ _ _ _ _, fail_mmap => EINVAL
       | drm_set_crtc _ _ _ _ _ _ _, fail_bind => EINVAL
       | _, _ => e
       end;
     d_strerror := fun e =>
       if e =? ENOENT then "No such file or directory"%string
       else "Invalid argument"%string;
     d_indeterminate := fun _ => 0xdeadbeef;
     d_open := fun _ _ => if failure_eqb f fail_open then -1 else 3;
     d_create_dumb := fun _ w h _ =>
       (if failure_eqb f fail_alloc then -1 else 0,
        {| cd_handle := 1; cd_pitch := 4 * w + 64;
           cd_size := (4 * w + 64) * h |});
     d_add_fb2 := fun _ _ _ _ _ _ =>
       (if failure_eqb f fail_register then - EINVAL else 0, 41);
     d_map_dumb := fun _ _ =>
       (if failure_eqb f fail_map then -1 else 0, 0x100000);
     d_mmap := fun _ _ _ _ _ =>
       if failure_eqb f fail_mmap then MAP_FAILED else 0x7f0000000000;
     d_get_resources := fun _ =>
       if failure_eqb f fail_resources then None else Some demo_resources;
     d_get_connector := fun _ _ id =>
       if id =? 40 then Some demo_unplugged
       else if failure_eqb f null_connector then None
       else Some (demo_connector f);
     d_get_encoder := fun _ _ =>
       if failure_eqb f fail_encoder then None else Some (demo_encoder f);
     d_set_crtc := fun _ _ _ _ _ =>
       if failure_eqb f fail_bind then -1 else 0 |}.

Definition boot : world :=
  {| w_trace := []; w_errno := 0; w_stdout := EmptyString;
     w_stderr := EmptyString; w_pixels := fun _ => 0 |}.

(** The observable part of a run from [boot]: result, calls, streams. *)
Definition observe {A} (m : M A) : outcome A * list call * string * string :=
  let '(r, w) := m boot in (r, w_trace w, w_stdout w, w_stderr w).

(** The surface of the demo driver: 128x96, stride 576 bytes. *)
Definition demo_surface : DrmBuffer.state :=
  live_surface (demo_driver no_failure) 3 128 96.

(** The pixel memory after [fill_chessboard]. *)
Definition painted (self : DrmBuffer.state) (premultiplied : bool)
    (w : world) : Z -> Z :=
  w_pixels (snd (DrmBuffer.fill_chessboard self premultiplied w)).

Definition is_release (c : call) : bool :=
  match releases c with Some _ => true | None => false end.

(** [w'] is [w] with the calls [t] logged after it. *)
Definition logged (w w' : world) (t : list call) : Prop :=
  w_trace w' = w_trace w ++ t.

(** The call a guarded release makes. *)
Definition guarded (b : bool) (c : call) : list call :=
  if b then [c] else [].

(** The world after the calls [t] have been made from [w]. *)
Definition log_call (drv : Driver) (w : world) (c : call) : world :=
  snd (sys drv c w).
Definition after (drv : Driver) (w : world) (t : list call) : world :=
  fold_left (log_call drv) t w.

(** A computation whose effect on the world stays within [R] and whose
    exceptions all satisfy [S]. *)
Definition respects (R : world -> world -> Prop) (S : exn -> Prop)
    {A} (m : M A) : Prop :=
  forall w, R w (snd (m w)) /\ (forall e, fst (m w) = Throw e -> S e).

(** [w'] extends the log of [w] with calls that all satisfy [P]. *)
Definition logs (P : call -> Prop) (w w' : world) : Prop :=
  exists t, w_trace w' = w_trace w ++ t /\ Forall P t.

Definition quiet_stderr (w w' : world) : Prop := w_stderr w' = w_stderr w.

Definition not_close (c : call) : Prop := is_close c = false.

(** The call that frees a descriptor, if one is held. *)
Definition opt_call {A} (f : A -> call) (o : option A) : list call :=
  match o with
  | Some a => [f a]
  | None => []
  end.

(** What each connector query of the scan would be answered, in listed
    order, starting at loop index [i]. *)
Fixpoint connector_replies (drv : Driver) (fd : Z) (i : nat) (ids : list Z)
    : list (option drmModeConnector) :=
  match ids with
  | [] => []
  | id :: rest =>
      d_get_connector drv i fd id :: connector_replies drv fd (S i) rest
  end.

Definition unconnected (c : drmModeConnector) : Prop :=
  is_connected (connection c) = false.

(** Query-then-free for each connector of [cs], paired with its id. *)
Definition discard_calls (fd : Z) (ids : list Z) (cs : list drmModeConnector)
    : list call :=
  flat_map (fun ic => [drm_get_connector fd (fst ic);
                       drm_free_connector (snd ic)])
           (combine ids cs).

(** The connector descriptors a log of calls frees. *)
Definition freed_connectors (t : list call) : list drmModeConnector :=
  flat_map (fun c => match c with
                     | drm_free_connector d => [d]
                     | _ => []
                     end) t.

(** The error kinds of the specification, as the exceptions thrown. *)
Definition NoDisplayError : exn := runtime_error "No connected connector found".
Definition NoCrtcError : exn := runtime_error "Failed to find CRTC".

(** Index [n] is the first CRTC index whose bit is set in [mask]. *)
Definition first_eligible (mask : Z) (n : nat) : Prop :=
  Z.testbit mask (Z.of_nat n) = true /\
  forall j, (j < n)%nat -> Z.testbit mask (Z.of_nat j) = false.

(** The message of the exception a computation ended with, if any. *)
Definition thrown_message {A} (r : outcome A) : option string :=
  match r with
  | Throw e => Some (what_arg_of e)
  | _ => None
  end.

(** The messages of the ten core failures. *)
Definition core_failures : list string :=
  ["Failed to open file"; "Failed to get DRM resources";
   "No connected connector found"; "Failed to get encoder";
   "Failed to find CRTC"; "Failed to create dumb buffer";
   "Failed to add framebuffer"; "Failed to map dumb buffer";
   "Failed to mmap framebuffer"; "Failed to set CRTC"]%string.

Definition usage_text : string :=
  ("Usage: dp-alpha p|s" ++ endl
   ++ tab ++ "p: use premultiplied alpha" ++ endl
   ++ tab ++ "s: use straight alpha" ++ endl)%string.

(** The number of newline characters in a string. *)
Fixpoint count_lines (s : string) : nat :=
  match s with
  | EmptyString => 0
  | String c rest =>
      ((if Ascii.eqb c (ascii_of_nat 10) then 1 else 0) + count_lines rest)%nat
  end.

(** ** Further vocabulary *)

(** The releases [DrmBuffer::cleanup] makes for a surface, in order. *)
Definition surface_release (self : DrmBuffer.state) : list call :=
  guarded (negb (DrmBuffer._mapped self =? nullptr)
           && negb (DrmBuffer._mapped self =? MAP_FAILED))
          (sys_munmap (DrmBuffer._mapped self) (DrmBuffer._size self))
  ++ guarded (negb (DrmBuffer._fb_id self =? 0))
             (drm_rm_fb (DrmBuffer._fd self) (DrmBuffer._fb_id self))
  ++ guarded (negb (DrmBuffer._handle self =? 0))
             (ioctl_destroy_dumb (DrmBuffer._fd self) (DrmBuffer._handle self)).

(** The calls [~DrmDevice] makes for a controller, in order. *)
Definition device_release (self : DrmDevice.state) : list call :=
  opt_call drm_free_encoder (DrmDevice._encoder self)
  ++ opt_call drm_free_connector (DrmDevice._connector self)
  ++ opt_call drm_free_resources (DrmDevice._resources self)
  ++ [sys_close (DrmDevice._fd self)].

(** A call a Pixel Surface may make on the descriptor [fd] lent to it:
    one of its own acquisitions or releases, on that descriptor. *)
Definition surface_call_on (fd : Z) (c : call) : Prop :=
  match c with
  | ioctl_create_dumb f _ _ _ => f = fd
  | drm_add_fb2 f _ _ _ _ _ => f = fd
  | ioctl_map_dumb f _ => f = fd
  | sys_mmap _ _ _ f _ => f = fd
  | drm_rm_fb f _ => f = fd
  | ioctl_destroy_dumb f _ => f = fd
  | sys_munmap _ _ => True
  | _ => False
  end.

(** A call that leaves the surface resources alone. *)
Definition off_surface (drv : Driver) (c : call) : Prop :=
  releases c = None /\ acquires drv c = None.

(** A call that gives back neither the resource list nor the encoder,
    and does not close a descriptor. *)
Definition keeps_descriptors (c : call) : Prop :=
  match c with
  | drm_free_encoder _ | drm_free_resources _ | sys_close _ => False
  | _ => True
  end.

Definition is_cin_get (c : call) : bool :=
  match c with cin_get => true | _ => false end.

(** The line [main] prints once the buffer is on screen. *)
Definition instruction (premultiplied : bool) : string :=
  ("If you see a chessboard pattern, " ++ alpha_name premultiplied
   ++ " alpha blending mode is incorrect." ++ endl)%string.

(** The mode-set call [DrmDevice::set_crtc] makes for a constructed
    controller. *)
Definition call_bind (dev : DrmDevice.state) (conn : drmModeConnector)
    (fb_id : Z) : call :=
  drm_set_crtc (DrmDevice._fd dev) (DrmDevice._crtc_id dev) fb_id 0 0
    (connector_id conn) (DrmDevice._mode dev).

Definition bind_reply (drv : Driver) (dev : DrmDevice.state)
    (conn : drmModeConnector) (fb_id : Z) : Z :=
  d_set_crtc drv (DrmDevice._fd dev) (DrmDevice._crtc_id dev) fb_id
    (connector_id conn) (DrmDevice._mode dev).

(** A kernel that never hands out 0 as a buffer handle or framebuffer
    id, and never maps at address 0. *)
Definition hands_out_nonzero (drv : Driver) : Prop :=
  (forall fd w h bpp, cd_handle (snd (d_create_dumb drv fd w h bpp)) <> 0) /\
  (forall fd w h fmt handle pitch,
     snd (d_add_fb2 drv fd w h fmt handle pitch) <> 0) /\
  (forall len prot flags fd off, d_mmap drv len prot flags fd off <> nullptr).

Definition EBADF : Z := 9.

(** The demo driver with a failing framebuffer registration, whose
    buffer deallocation then fails too and overwrites [errno]. *)
Definition clobbering_driver : Driver :=
  {| d_errno := fun c e =>
       match c with
       | drm_add_fb2 _ _ _ _ _ _ => EINVAL
       | ioctl_destroy_dumb _ _ => EBADF
       | _ => e
       end;
     d_strerror := fun e =>
       if e =? EBADF then "Bad file descriptor"%string
       else "Invalid argument"%string;
     d_indeterminate := d_indeterminate (demo_driver fail_register);
     d_open := d_open (demo_driver fail_register);
     d_create_dumb := d_create_dumb (demo_driver fail_register);
     d_add_fb2 := d_add_fb2 (demo_driver fail_register);
     d_map_dumb := d_map_dumb (demo_driver fail_register);
     d_mmap := d_mmap (demo_driver fail_register);
     d_get_resources := d_get_resources (demo_driver fail_register);
     d_get_connector := d_get_connector (demo_driver fail_register);
     d_get_encoder := d_get_encoder (demo_driver fail_register);
     d_set_crtc := d_set_crtc (demo_driver fail_register) |}.

(** Resources listing 33 CRTCs, one more than a 32-bit mask can name. *)
Definition crowded_resources : drmModeRes :=
  {| connectors := [40; 42];
     crtcs := map Z.of_nat (seq 100 33) |}.

(** The world once [fill_chessboard] has run, and once a line has been
    written to standard output. *)
Definition painted_world (self : DrmBuffer.state) (premultiplied : bool)
    (w : world) : world :=
  snd (DrmBuffer.fill_chessboard self premultiplied w).

Definition printed (s : string) (w : world) : world := snd (cout s w).

(** The scope of [buffer] in [main]: creation, the statements that use
    the buffer, and its destruction on the way out. *)
Definition surface_scope (drv : Driver) (dev : DrmDevice.state)
    (premultiplied : bool) : M unit :=
  buffer <- DrmDevice.create_buffer drv dev ;;
  finally
    (DrmBuffer.fill_chessboard buffer premultiplied ;;
     DrmDevice.set_crtc drv dev (DrmBuffer.fb_id buffer) ;;
     cout ("If you see a chessboard pattern, "
             ++ alpha_name premultiplied
             ++ " alpha blending mode is incorrect." ++ endl)%string ;;
     sys drv cin_get)
    (DrmBuffer.dtor drv buffer).

(** A call that is neither about surface resources nor the wait for the
    user. *)
Definition bystander (drv : Driver) (c : call) : Prop :=
  off_surface drv c /\ is_cin_get c = false.

(** How often a log waits for the user. *)
Definition count_cin_get (t : list call) : nat :=
  List.length (filter is_cin_get t).

(** The effect on the world of a stretch of the run that writes nothing
    to standard output and only makes [bystander] calls. *)
Definition passes_by (drv : Driver) (w w' : world) : Prop :=
  logs (bystander drv) w w' /\ w_stdout w' = w_stdout w.

(** The controller the demo driver yields when nothing fails. *)
Definition demo_device : DrmDevice.state :=
  {| DrmDevice._fd := 3;
     DrmDevice._connector := Some (demo_connector no_failure);
     DrmDevice._encoder := Some (demo_encoder no_failure);
     DrmDevice._resources := Some demo_resources;
     DrmDevice._mode := demo_mode;
     DrmDevice._crtc_id := 38 |}.

(** The demo driver with nothing failing, except that the mapping is
    handed out at address 0. *)
Definition null_mapping_driver : Driver :=
  {| d_errno := d_errno (demo_driver no_failure);
     d_strerror := d_strerror (demo_driver no_failure);
     d_indeterminate := d_indeterminate (demo_driver no_failure);
     d_open := d_open (demo_driver no_failure);
     d_create_dumb := d_create_dumb (demo_driver no_failure);
     d_add_fb2 := d_add_fb2 (demo_driver no_failure);
     d_map_dumb := d_map_dumb (demo_driver no_failure);
     d_mmap := fun _ _ _ _ _ => nullptr;
     d_get_resources := d_get_resources (demo_driver no_failure);
     d_get_connector := d_get_connector (demo_driver no_failure);
     d_get_encoder := d_get_encoder (demo_driver no_failure);
     d_set_crtc := d_set_crtc (demo_driver no_failure) |}.

(** The demo driver with nothing failing, except that the buffer is
    reported one page long: too short for 96 rows of 576 bytes. *)
Definition short_buffer_driver : Driver :=
  {| d_errno := d_errno (demo_driver no_failure);
     d_strerror := d_strerror (demo_driver no_failure);
     d_indeterminate := d_indeterminate (demo_driver no_failure);
     d_open := d_open (demo_driver no_failure);
     d_create_dumb := fun _ w h _ =>
       (0, {| cd_handle := 1; cd_pitch := 4 * w + 64; cd_size := 4096 |});
     d_add_fb2 := d_add_fb2 (demo_driver no_failure);
     d_map_dumb := d_map_dumb (demo_driver no_failure);
     d_mmap := d_mmap (demo_driver no_failure);
     d_get_resources := d_get_resources (demo_driver no_failure);
     d_get_connector := d_get_connector (demo_driver no_failure);
     d_get_encoder := d_get_encoder (demo_driver no_failure);
     d_set_crtc := d_set_crtc (demo_driver no_failure) |}.

(** * Properties *)

(** ** The checkerboard *)

Module Pattern.
Import DrmBuffer.

Lemma in_upto (n k : Z) : In k (upto n) <-> 0 <= k < n.
Proof.
  unfold upto. rewrite in_map_iff. split.
  - intros [i [<- Hi]]. apply in_seq in Hi. lia.
  - intros Hk. exists (Z.to_nat k). split; [lia|]. apply in_seq. lia.
Qed.

Lemma parity_wrap32 (n : Z) : wrap32 n mod 2 = n mod 2.
Proof.
  unfold wrap32. apply Z.mod_mod_divide.
  exists (2 ^ 31). reflexivity.
Qed.

(** The colour the code computes is the colour of the tile parity. *)
Lemma tile_color_parity (premultiplied : bool) (x y : Z) :
  tile_color premultiplied x y =
  if (x / 64 + y / 64) mod 2 =? 1 then 0xFF808080
  else if premultiplied then 0x80808080 else 0x80FFFFFF.
Proof.
  unfold tile_color, sq_sz, grey, white. rewrite parity_wrap32.
  pose proof (Z.mod_pos_bound (x / 64 + y / 64) 2 ltac:(lia)) as Hb.
  destruct (Z.eqb_spec ((x / 64 + y / 64) mod 2) 0) as [E|E];
    destruct (Z.eqb_spec ((x / 64 + y / 64) mod 2) 1) as [E'|E'];
    simpl; try reflexivity; lia.
Qed.

Lemma fill_row_replay self p y px :
  fill_row self p y px =
  replay (map (fun x => (pixel_index self x y, tile_color p x y))
              (upto (_width self))) px.
Proof.
  unfold fill_row, replay. generalize (upto (_width self)) as xs.
  intros xs. revert px. induction xs as [|x xs IH]; intros px; simpl.
  - reflexivity.
  - apply IH.
Qed.

(** [fill_chessboard] performs exactly the stores of [fill_writes], in
    that order. *)
Lemma fill_pixels_replay self p px :
  fill_pixels self p px = replay (fill_writes self p) px.
Proof.
  unfold fill_pixels, fill_writes. generalize (upto (_height self)) as ys.
  intros ys. revert px. induction ys as [|y ys IH]; intros px; simpl.
  - reflexivity.
  - unfold replay at 1. rewrite fold_left_app. fold (replay).
    rewrite IH, fill_row_replay. reflexivity.
Qed.

Lemma in_fill_writes self p i v :
  In (i, v) (fill_writes self p) <->
  exists x y, 0 <= x < _width self /\ 0 <= y < _height self /\
              i = pixel_index self x y /\ v = tile_color p x y.
Proof.
  unfold fill_writes. rewrite in_flat_map. split.
  - intros [y [Hy Hin]]. apply in_map_iff in Hin.
    destruct Hin as [x [Heq Hx]]. inversion Heq; subst.
    exists x, y. rewrite in_upto in Hx, Hy. auto.
  - intros [x [y [Hx [Hy [-> ->]]]]]. exists y. split.
    + apply in_upto; assumption.
    + apply in_map_iff. exists x. split; [reflexivity|].
      apply in_upto; assumption.
Qed.

(** After a replay, a word holds the value of some store to it, or it
    was never stored to and is unchanged. *)
Lemma replay_cases (writes : list (Z * Z)) (px : Z -> Z) (k : Z) :
  (exists v, In (k, v) writes /\ replay writes px k = v) \/
  ((forall v, ~ In (k, v) writes) /\ replay writes px k = px k).
Proof.
  revert px. induction writes as [|[i v] ws IH]; intros px.
  - right. split; [intros v H; exact H | reflexivity].
  - change (replay ((i, v) :: ws) px) with (replay ws (store px i v)).
    destruct (IH (store px i v)) as [[v' [Hin Hv']]|[Hno Hsame]].
    + left. exists v'. split; [right; exact Hin | exact Hv'].
    + rewrite Hsame. unfold store. destruct (Z.eqb_spec k i) as [->|Hne].
      * left. exists v. split; [left; reflexivity | reflexivity].
      * right. split; [|reflexivity].
        intros v0 [H|H]; [inversion H; congruence | exact (Hno v0 H)].
Qed.

(** When rows do not overlap and the index does not wrap, the index is
    [y * (pitch / 4) + x] and determines the coordinate. *)
Lemma pixel_index_plain self x y :
  0 <= _pitch self ->
  _width self <= _pitch self / 4 ->
  _height self * (_pitch self / 4) <= 2 ^ 32 ->
  0 <= x < _width self -> 0 <= y < _height self ->
  pixel_index self x y = y * (_pitch self / 4) + x.
Proof.
  intros Hp Hw Hh Hx Hy. unfold pixel_index, wrap32.
  set (q := _pitch self / 4) in *.
  assert (0 <= y * q) by nia.
  assert (y * q + x < 2 ^ 32) by nia.
  rewrite (Z.mod_small (y * q)) by nia.
  apply Z.mod_small. lia.
Qed.

Lemma row_column_unique (q x y x' y' : Z) :
  0 <= x < q -> 0 <= x' < q -> 0 <= y -> 0 <= y' ->
  y * q + x = y' * q + x' -> x = x' /\ y = y'.
Proof.
  intros Hx Hx' Hy Hy' E.
  assert (y = y') by nia. subst. lia.
Qed.

End Pattern.

Section Checkerboard.
Import DrmBuffer.
Variables (self : state) (premultiplied : bool).

(** C4.  For an in-bounds coordinate [(x, y)], [fill_chessboard] stores
    at the pixel's index the value [0xFF808080] when
    [(x/64 + y/64) mod 2 = 1], and otherwise [0x80808080]
    (premultiplied) or [0x80FFFFFF] (straight).  The value depends only
    on the tile parity and the convention; no store ever carries the
    light colour of the other convention; and when rows do not overlap
    (width <= stride/4, no 32-bit wrap of the index) the pixel holds
    that value once the fill is done. *)
Theorem fill_chessboard_tile_values (w : world) (x y : Z) :
  0 <= x < _width self -> 0 <= y < _height self ->
  let expected :=
    if (x / 64 + y / 64) mod 2 =? 1 then 0xFF808080
    else if premultiplied then 0x80808080 else 0x80FFFFFF in
  painted self premultiplied w = replay (fill_writes self premultiplied) (w_pixels w) /\
  In (pixel_index self x y, expected) (fill_writes self premultiplied) /\
  (forall i v, In (i, v) (fill_writes self premultiplied) ->
     exists x' y', 0 <= x' < _width self /\ 0 <= y' < _height self /\
       i = pixel_index self x' y' /\
       v = (if (x' / 64 + y' / 64) mod 2 =? 1 then 0xFF808080
            else if premultiplied then 0x80808080 else 0x80FFFFFF) /\
       v <> (if premultiplied then 0x80FFFFFF else 0x80808080)) /\
  (forall x' y', (x' / 64 + y' / 64) mod 2 = (x / 64 + y / 64) mod 2 ->
     tile_color premultiplied x' y' = expected) /\
  (0 <= _pitch self -> _width self <= _pitch self / 4 ->
   _height self * (_pitch self / 4) <= 2 ^ 32 ->
   painted self premultiplied w (y * (_pitch self / 4) + x) = expected).
Proof.
  intros Hx Hy expected.
  assert (Hexp : tile_color premultiplied x y = expected)
    by apply Pattern.tile_color_parity.
  assert (Hrep : painted self premultiplied w = replay (fill_writes self premultiplied) (w_pixels w))
    by apply Pattern.fill_pixels_replay.
  split; [exact Hrep|]. split; [|split; [|split]].
  - apply Pattern.in_fill_writes. exists x, y. auto.
  - intros i v Hin. apply Pattern.in_fill_writes in Hin.
    destruct Hin as [x' [y' [Hx' [Hy' [Hi Hv]]]]].
    exists x', y'. rewrite Pattern.tile_color_parity in Hv.
    repeat split; try assumption; try lia. subst v.
    destruct ((x' / 64 + y' / 64) mod 2 =? 1), premultiplied; discriminate.
  - intros x' y' Hpar. rewrite Pattern.tile_color_parity, Hpar. reflexivity.
  - intros Hp Hw Hh. rewrite Hrep.
    destruct (Pattern.replay_cases (fill_writes self premultiplied)
                (w_pixels w) (y * (_pitch self / 4) + x))
      as [[v [Hin Hv]]|[Hno _]].
    + rewrite Hv. apply Pattern.in_fill_writes in Hin.
      destruct Hin as [x' [y' [Hx' [Hy' [Hi ->]]]]].
      rewrite Pattern.pixel_index_plain in Hi by assumption.
      apply Pattern.row_column_unique in Hi; try lia.
      destruct Hi as [-> ->]. exact Hexp.
    + exfalso. apply (Hno (tile_color premultiplied x y)).
      apply Pattern.in_fill_writes. exists x, y.
      rewrite Pattern.pixel_index_plain by assumption. auto.
Qed.

(** C7.  [fill_chessboard] stores only to the words
    [pixel_index self x y] of in-bounds coordinates; every other word
    keeps its content.  The index of a coordinate is
    [y * (stride/4) + x], with the stride recorded at allocation, so in
    a layout whose rows do not overlap the padding words between the
    width and the stride of every row are unchanged. *)
Theorem fill_chessboard_frame (w : world) :
  (forall k,
     (forall x y, 0 <= x < _width self -> 0 <= y < _height self ->
                  k <> pixel_index self x y) ->
     painted self premultiplied w k = w_pixels w k) /\
  (0 <= _pitch self -> _width self <= _pitch self / 4 ->
   _height self * (_pitch self / 4) <= 2 ^ 32 ->
   (forall x y, 0 <= x < _width self -> 0 <= y < _height self ->
      pixel_index self x y = y * (_pitch self / 4) + x) /\
   (forall y c, 0 <= y < _height self ->
      _width self <= c < _pitch self / 4 ->
      painted self premultiplied w (y * (_pitch self / 4) + c) = w_pixels w (y * (_pitch self / 4) + c)) /\
   (forall k, k < 0 \/ _height self * (_pitch self / 4) <= k ->
      painted self premultiplied w k = w_pixels w k)).
Proof.
  assert (Hframe : forall k,
     (forall x y, 0 <= x < _width self -> 0 <= y < _height self ->
                  k <> pixel_index self x y) ->
     painted self premultiplied w k = w_pixels w k).
  { intros k Hk. unfold painted. simpl. rewrite Pattern.fill_pixels_replay.
    destruct (Pattern.replay_cases (fill_writes self premultiplied)
                (w_pixels w) k) as [[v [Hin _]]|[_ Hsame]].
    - apply Pattern.in_fill_writes in Hin.
      destruct Hin as [x [y [Hx [Hy [Hi _]]]]].
      exfalso. exact (Hk x y Hx Hy Hi).
    - exact Hsame. }
  split; [exact Hframe|].
  intros Hp Hw Hh. split; [|split].
  - intros x y Hx Hy. apply Pattern.pixel_index_plain; assumption.
  - intros y c Hy Hc. apply Hframe. intros x' y' Hx' Hy' E.
    rewrite Pattern.pixel_index_plain in E by assumption.
    apply Pattern.row_column_unique in E; lia.
  - intros k Hk. apply Hframe. intros x' y' Hx' Hy' E.
    rewrite Pattern.pixel_index_plain in E by assumption.
    set (q := _pitch self / 4) in *. nia.
Qed.

End Checkerboard.

Lemma fill_chessboard_tile_values_witness :
  (0 <= 70 < DrmBuffer._width demo_surface) /\
  (0 <= 5 < DrmBuffer._height demo_surface) /\
  In (DrmBuffer.pixel_index demo_surface 70 5, 0xFF808080)
     (DrmBuffer.fill_writes demo_surface false) /\
  painted demo_surface false boot
    (5 * (DrmBuffer._pitch demo_surface / 4) + 70) = 0xFF808080.
Proof.
  assert (Hx : 0 <= 70 < DrmBuffer._width demo_surface) by (simpl; lia).
  assert (Hy : 0 <= 5 < DrmBuffer._height demo_surface) by (simpl; lia).
  pose proof (fill_chessboard_tile_values demo_surface false boot 70 5 Hx Hy)
    as H.
  cbv zeta in H.
  change ((70 / 64 + 5 / 64) mod 2 =? 1) with true in H.
  cbv iota in H.
  destruct H as [_ [Hin [_ [_ Hfinal]]]].
  split; [exact Hx|]. split; [exact Hy|]. split.
  - exact Hin.
  - apply Hfinal.
    + apply Z.leb_le. reflexivity.
    + change (128 <= 576 / 4). apply Z.leb_le. reflexivity.
    + change (96 * (576 / 4) <= 2 ^ 32). apply Z.leb_le. reflexivity.
Defined.

Lemma fill_chessboard_frame_witness :
  (forall x y, 0 <= x < DrmBuffer._width demo_surface ->
     0 <= y < DrmBuffer._height demo_surface ->
     DrmBuffer.pixel_index demo_surface x y =
     y * (DrmBuffer._pitch demo_surface / 4) + x) /\
  painted demo_surface true boot
    (7 * (DrmBuffer._pitch demo_surface / 4) + 130) =
  w_pixels boot (7 * (DrmBuffer._pitch demo_surface / 4) + 130).
Proof.
  destruct (fill_chessboard_frame demo_surface true boot) as [_ Hlay].
  destruct Hlay as [Hidx [Hpad _]].
  - apply Z.leb_le. reflexivity.
  - change (128 <= 576 / 4). apply Z.leb_le. reflexivity.
  - change (96 * (576 / 4) <= 2 ^ 32). apply Z.leb_le. reflexivity.
  - split.
    + exact Hidx.
    + apply Hpad.
      * simpl. lia.
      * change (128 <= 130 < 576 / 4). split; [apply Z.leb_le | apply Z.ltb_lt]; reflexivity.
Defined.

(** ** Pixel Surface: acquisition and teardown *)

Lemma resource_eqb_refl (r : resource) : resource_eqb r r = true.
Proof. destruct r; simpl; rewrite !Z.eqb_refl; reflexivity. Qed.

Lemma logged_app (w1 w2 w3 : world) (t u : list call) :
  logged w1 w2 t -> logged w2 w3 u -> logged w1 w3 (t ++ u).
Proof.
  unfold logged. intros H1 H2. rewrite H2, H1, app_assoc. reflexivity.
Qed.

(** Unfold one run of the monad down to the driver's replies. *)
Ltac run_monad :=
  unfold DrmBuffer.ctor, DrmBuffer.dtor, DrmBuffer.create, DrmBuffer.cleanup,
    bind, ret, throw_errno, get_errno, throw, when, sys, logged; simpl.

Ltac trace_eq :=
  simpl; repeat rewrite <- app_assoc; simpl; try reflexivity.

Ltac leaves :=
  repeat match goal with
         | |- _ /\ _ => split
         | |- _ -> _ => intro
         end;
  first [ lia | contradiction | solve [trace_eq]
        | solve [eexists; reflexivity] ].

Section Surface.
Variables (drv : Driver) (fd width height : Z).

(** What construction does, by the first step that fails. *)
Lemma ctor_run (w : world) :
  let run := DrmBuffer.ctor drv fd width height w in
  let r_alloc := fst (alloc_reply drv fd width height) in
  let r_register := fst (register_reply drv fd width height) in
  let r_map := fst (map_reply drv fd width height) in
  let p_mmap := mmap_reply drv fd width height in
  let c_alloc := call_alloc fd width height in
  let c_register := call_register drv fd width height in
  let c_map := call_map drv fd width height in
  let c_mmap := call_mmap drv fd width height in
  let c_rm_fb := call_rm_fb drv fd width height in
  let c_destroy := call_destroy drv fd width height in
  (r_alloc < 0 ->
     logged w (snd run) [c_alloc] /\
     exists code,
       fst run = Throw (system_error code "Failed to create dumb buffer")) /\
  (0 <= r_alloc -> r_register < 0 ->
     logged w (snd run) [c_alloc; c_register; c_destroy] /\
     exists code,
       fst run = Throw (system_error code "Failed to add framebuffer")) /\
  (0 <= r_alloc -> 0 <= r_register -> r_map < 0 ->
     logged w (snd run) [c_alloc; c_register; c_map; c_rm_fb; c_destroy] /\
     exists code,
       fst run = Throw (system_error code "Failed to map dumb buffer")) /\
  (0 <= r_alloc -> 0 <= r_register -> 0 <= r_map -> p_mmap = MAP_FAILED ->
     logged w (snd run)
       [c_alloc; c_register; c_map; c_mmap; c_rm_fb; c_destroy] /\
     exists code,
       fst run = Throw (system_error code "Failed to mmap framebuffer")) /\
  (0 <= r_alloc -> 0 <= r_register -> 0 <= r_map -> p_mmap <> MAP_FAILED ->
     logged w (snd run) [c_alloc; c_register; c_map; c_mmap] /\
     fst run = Ok (live_surface drv fd width height)).
Proof.
  cbv zeta.
  unfold live_surface, mmap_reply, map_reply, register_reply, call_alloc,
    call_register, call_map, call_mmap, call_rm_fb, call_destroy,
    register_reply, map_reply, alloc_handle, alloc_pitch, alloc_size,
    alloc_reply.
  run_monad.
  destruct (d_create_dumb drv fd width height 32) as [r1 out]; simpl.
  destruct (d_add_fb2 drv fd width height DRM_FORMAT_ARGB8888
              (cd_handle out) (cd_pitch out)) as [r2 fb]; simpl.
  destruct (d_map_dumb drv fd (cd_handle out)) as [r3 off]; simpl.
  destruct (Z.ltb_spec r1 0); simpl; [leaves|].
  destruct (Z.ltb_spec r2 0); simpl; [leaves|].
  destruct (Z.ltb_spec r3 0); simpl; [leaves|].
  match goal with
  | |- context [?p =? MAP_FAILED] => destruct (Z.eqb_spec p MAP_FAILED)
  end; simpl; leaves.
Qed.

Ltac lifo_step :=
  match goal with
  | |- context [d_create_dumb ?d ?a ?b ?c ?e] =>
      destruct (d_create_dumb d a b c e) as [? ?]
  | |- context [d_add_fb2 ?d ?a ?b ?c ?e ?f ?g] =>
      destruct (d_add_fb2 d a b c e f g) as [? ?]
  | |- context [d_map_dumb ?d ?a ?b] =>
      destruct (d_map_dumb d a b) as [? ?]
  | |- context [?r <? 0] => destruct (Z.ltb_spec r 0); try lia
  | |- context [?p =? MAP_FAILED] =>
      destruct (Z.eqb_spec p MAP_FAILED); try contradiction
  | |- context [resource_eqb ?r ?r] => rewrite (resource_eqb_refl r)
  end; cbn [fst snd lifo releases acquires] in *.

Ltac lifo_run :=
  unfold mmap_reply, map_reply, register_reply, call_alloc,
    call_register, call_map, call_mmap, call_rm_fb, call_destroy,
    call_munmap, mmap_reply, register_reply, map_reply, alloc_handle,
    alloc_pitch, alloc_size, alloc_reply in *;
  cbn [lifo releases acquires];
  repeat lifo_step;
  try reflexivity.

(** The calls of each way through construction and teardown keep the
    stack discipline and leave the expected resources held. *)
Lemma lifo_cases :
  let r_alloc := fst (alloc_reply drv fd width height) in
  let r_register := fst (register_reply drv fd width height) in
  let r_map := fst (map_reply drv fd width height) in
  let p_mmap := mmap_reply drv fd width height in
  let c_alloc := call_alloc fd width height in
  let c_register := call_register drv fd width height in
  let c_map := call_map drv fd width height in
  let c_mmap := call_mmap drv fd width height in
  let c_rm_fb := call_rm_fb drv fd width height in
  let c_destroy := call_destroy drv fd width height in
  let c_munmap := call_munmap drv fd width height in
  (r_alloc < 0 -> lifo drv [c_alloc] [] = Some []) /\
  (0 <= r_alloc -> r_register < 0 ->
     lifo drv [c_alloc; c_register; c_destroy] [] = Some []) /\
  (0 <= r_alloc -> 0 <= r_register -> r_map < 0 ->
     lifo drv [c_alloc; c_register; c_map; c_rm_fb; c_destroy] [] = Some []) /\
  (0 <= r_alloc -> 0 <= r_register -> 0 <= r_map -> p_mmap = MAP_FAILED ->
     lifo drv [c_alloc; c_register; c_map; c_mmap; c_rm_fb; c_destroy] []
     = Some []) /\
  (0 <= r_alloc -> 0 <= r_register -> 0 <= r_map -> p_mmap <> MAP_FAILED ->
     lifo drv [c_alloc; c_register; c_map; c_mmap;
               c_munmap; c_rm_fb; c_destroy] [] = Some []).
Proof.
  cbv zeta. repeat split; intros; lifo_run.
Qed.

End Surface.

Ltac finish_case :=
  first [ lia | contradiction | assumption | discriminate | reflexivity
        | solve [eexists; reflexivity]
        | solve [repeat constructor] ].

(** C1.  Whichever of the four steps of the construction of a Pixel
    Surface fails (buffer, framebuffer registration, map descriptor,
    virtual map), the constructor throws, and by then it has made
    exactly these calls: the acquisition steps up to the failing one, in
    order and with no later step attempted, followed by the releases of
    what the earlier steps acquired, last acquired first and each once
    ([lifo] ends with nothing held).  If framebuffer registration fails
    the calls are allocate, register, deallocate: one deallocation, no
    map-descriptor request and no mmap.  The constructor throws in no
    other case. *)
Theorem create_failure_unwinds (drv : Driver) (fd width height : Z)
    (w : world) :
  let run := DrmBuffer.ctor drv fd width height w in
  let r_alloc := fst (alloc_reply drv fd width height) in
  let r_register := fst (register_reply drv fd width height) in
  let r_map := fst (map_reply drv fd width height) in
  let p_mmap := mmap_reply drv fd width height in
  let c_alloc := call_alloc fd width height in
  let c_register := call_register drv fd width height in
  let c_map := call_map drv fd width height in
  let c_mmap := call_mmap drv fd width height in
  let c_rm_fb := call_rm_fb drv fd width height in
  let c_destroy := call_destroy drv fd width height in
  let unwinds (attempted released : list call) (msg : string) :=
    (exists code, fst run = Throw (system_error code msg)) /\
    logged w (snd run) (attempted ++ released) /\
    Forall (fun c => is_acquisition c = true) attempted /\
    Forall (fun c => is_release c = true) released /\
    lifo drv (attempted ++ released) [] = Some [] in
  (r_alloc < 0 ->
   unwinds [c_alloc] [] "Failed to create dumb buffer"%string) /\
  (0 <= r_alloc -> r_register < 0 ->
   unwinds [c_alloc; c_register] [c_destroy]
     "Failed to add framebuffer"%string) /\
  (0 <= r_alloc -> 0 <= r_register -> r_map < 0 ->
   unwinds [c_alloc; c_register; c_map] [c_rm_fb; c_destroy]
     "Failed to map dumb buffer"%string) /\
  (0 <= r_alloc -> 0 <= r_register -> 0 <= r_map -> p_mmap = MAP_FAILED ->
   unwinds [c_alloc; c_register; c_map; c_mmap] [c_rm_fb; c_destroy]
     "Failed to mmap framebuffer"%string) /\
  (forall e, fst run = Throw e ->
     r_alloc < 0 \/ r_register < 0 \/ r_map < 0 \/ p_mmap = MAP_FAILED).
Proof.
  intros run r_alloc r_register r_map p_mmap c_alloc c_register c_map c_mmap
    c_rm_fb c_destroy unwinds.
  destruct (ctor_run drv fd width height w) as [H1 [H2 [H3 [H4 H5]]]].
  destruct (lifo_cases drv fd width height) as [L1 [L2 [L3 [L4 _]]]].
  fold run r_alloc r_register r_map p_mmap c_alloc c_register c_map c_mmap
    c_rm_fb c_destroy in H1, H2, H3, H4, H5, L1, L2, L3, L4.
  subst unwinds. cbv beta.
  split; [|split; [|split; [|split]]].
  - intros A. destruct (H1 A) as [Hlog Hres].
    split; [exact Hres|]. split; [exact Hlog|].
    split; [repeat constructor|]. split; [constructor | exact (L1 A)].
  - intros A B. destruct (H2 A B) as [Hlog Hres].
    split; [exact Hres|]. split; [exact Hlog|].
    split; [repeat constructor|]. split; [repeat constructor | exact (L2 A B)].
  - intros A B C. destruct (H3 A B C) as [Hlog Hres].
    split; [exact Hres|]. split; [exact Hlog|].
    split; [repeat constructor|].
    split; [repeat constructor | exact (L3 A B C)].
  - intros A B C D. destruct (H4 A B C D) as [Hlog Hres].
    split; [exact Hres|]. split; [exact Hlog|].
    split; [repeat constructor|].
    split; [repeat constructor | exact (L4 A B C D)].
  - intros e Hthrow.
    destruct (Z.lt_ge_cases r_alloc 0) as [A|A]; [left; exact A|].
    destruct (Z.lt_ge_cases r_register 0) as [B|B]; [right; left; exact B|].
    destruct (Z.lt_ge_cases r_map 0) as [C|C];
      [right; right; left; exact C|].
    destruct (Z.eq_dec p_mmap MAP_FAILED) as [D|D];
      [right; right; right; exact D|].
    destruct (H5 A B C D) as [_ Hres]. rewrite Hres in Hthrow. discriminate.
Qed.

Lemma create_failure_unwinds_witness :
  let register_fails := DrmBuffer.ctor (demo_driver fail_register) 3 128 96 boot in
  let mmap_fails := DrmBuffer.ctor (demo_driver fail_mmap) 3 128 96 boot in
  ((exists code,
      fst register_fails
      = Throw (system_error code "Failed to add framebuffer")) /\
   logged boot (snd register_fails)
     ([ioctl_create_dumb 3 128 96 32;
       drm_add_fb2 3 128 96 DRM_FORMAT_ARGB8888 1 576]
      ++ [ioctl_destroy_dumb 3 1])) /\
  ((exists code,
      fst mmap_fails
      = Throw (system_error code "Failed to mmap framebuffer")) /\
   logged boot (snd mmap_fails)
     ([ioctl_create_dumb 3 128 96 32;
       drm_add_fb2 3 128 96 DRM_FORMAT_ARGB8888 1 576;
       ioctl_map_dumb 3 1; sys_mmap 55296 3 1 3 0x100000]
      ++ [drm_rm_fb 3 41; ioctl_destroy_dumb 3 1])).
Proof.
  intros register_fails mmap_fails. split.
  - destruct (create_failure_unwinds (demo_driver fail_register) 3 128 96 boot)
      as [_ [Hreg _]].
    destruct Hreg as [Hthrow [Hlog _]].
    + apply Z.leb_le. reflexivity.
    + apply Z.ltb_lt. reflexivity.
    + split; [exact Hthrow | exact Hlog].
  - destruct (create_failure_unwinds (demo_driver fail_mmap) 3 128 96 boot)
      as [_ [_ [_ [Hmmap _]]]].
    destruct Hmmap as [Hthrow [Hlog _]].
    + apply Z.leb_le. reflexivity.
    + apply Z.leb_le. reflexivity.
    + apply Z.leb_le. reflexivity.
    + reflexivity.
    + split; [exact Hthrow | exact Hlog].
Defined.

(** C2, as the code has it.  Destroying a Pixel Surface makes, in this
    order, the calls unmap (only if the recorded mapping is neither null
    nor [MAP_FAILED]), deregister the framebuffer (only if the recorded
    id is non-zero) and deallocate the buffer (only if the recorded
    handle is non-zero), and nothing else.  The destructor is reached
    only for a constructed surface: when the constructor throws, the
    scope of the buffer is left with the calls of the constructor alone.
    For a constructed surface with a non-null mapping and non-zero id
    and handle, construction followed by destruction releases what was
    acquired in exact reverse order, each resource once. *)
Theorem cleanup_reverse_guarded (drv : Driver) (self : DrmBuffer.state)
    (w : world) :
  let run := DrmBuffer.dtor drv self w in
  let has_mapping :=
    negb (DrmBuffer._mapped self =? nullptr)
    && negb (DrmBuffer._mapped self =? MAP_FAILED) in
  let c_munmap := sys_munmap (DrmBuffer._mapped self) (DrmBuffer._size self) in
  let c_rm_fb := drm_rm_fb (DrmBuffer._fd self) (DrmBuffer._fb_id self) in
  let c_destroy :=
    ioctl_destroy_dumb (DrmBuffer._fd self) (DrmBuffer._handle self) in
  fst run = Ok tt /\
  logged w (snd run)
    (guarded has_mapping c_munmap ++
     guarded (negb (DrmBuffer._fb_id self =? 0)) c_rm_fb ++
     guarded (negb (DrmBuffer._handle self =? 0)) c_destroy) /\
  (forall dev p w0 e w1,
     DrmDevice.create_buffer drv dev w0 = (Throw e, w1) ->
     surface_scope drv dev p w0 = (Throw e, w1)) /\
  (forall fd width height w0,
     DrmBuffer.ctor drv fd width height w0 = (Ok self, w) ->
     DrmBuffer._mapped self <> nullptr ->
     DrmBuffer._fb_id self <> 0 -> DrmBuffer._handle self <> 0 ->
     self = live_surface drv fd width height /\
     logged w (snd run) [c_munmap; c_rm_fb; c_destroy] /\
     logged w0 (snd run)
       [call_alloc fd width height; call_register drv fd width height;
        call_map drv fd width height; call_mmap drv fd width height;
        c_munmap; c_rm_fb; c_destroy] /\
     lifo drv
       [call_alloc fd width height; call_register drv fd width height;
        call_map drv fd width height; call_mmap drv fd width height;
        c_munmap; c_rm_fb; c_destroy] [] = Some []).
Proof.
  intros run has_mapping c_munmap c_rm_fb c_destroy.
  assert (Hgen : fst run = Ok tt /\
    logged w (snd run)
      (guarded has_mapping c_munmap ++
       guarded (negb (DrmBuffer._fb_id self =? 0)) c_rm_fb ++
       guarded (negb (DrmBuffer._handle self =? 0)) c_destroy)).
  { subst run has_mapping c_munmap c_rm_fb c_destroy.
    unfold DrmBuffer.dtor, DrmBuffer.cleanup, when, bind, ret, sys, logged,
      guarded.
    destruct (negb (DrmBuffer._mapped self =? nullptr)
              && negb (DrmBuffer._mapped self =? MAP_FAILED));
      destruct (negb (DrmBuffer._fb_id self =? 0));
      destruct (negb (DrmBuffer._handle self =? 0));
      cbn; repeat rewrite <- app_assoc; cbn; rewrite ?app_nil_r; auto. }
  destruct Hgen as [Hok Hlog]. split; [exact Hok|]. split; [exact Hlog|].
  split.
  - intros dev p w0 e w1 Hfail. unfold surface_scope. unfold bind at 1.
    rewrite Hfail. reflexivity.
  - intros fd width height w0 Hctor Hm Hf Hh.
    destruct (ctor_run drv fd width height w0) as [H1 [H2 [H3 [H4 H5]]]].
    destruct (lifo_cases drv fd width height) as [_ [_ [_ [_ L5]]]].
    cbv zeta in H1, H2, H3, H4, H5, L5. rewrite Hctor in *. cbn [fst snd] in *.
    destruct (Z.lt_ge_cases (fst (alloc_reply drv fd width height)) 0) as [A|A].
    { destruct (H1 A) as [_ [code Hres]]. discriminate. }
    destruct (Z.lt_ge_cases (fst (register_reply drv fd width height)) 0)
      as [B|B].
    { destruct (H2 A B) as [_ [code Hres]]. discriminate. }
    destruct (Z.lt_ge_cases (fst (map_reply drv fd width height)) 0) as [C|C].
    { destruct (H3 A B C) as [_ [code Hres]]. discriminate. }
    destruct (Z.eq_dec (mmap_reply drv fd width height) MAP_FAILED) as [D|D].
    { destruct (H4 A B C D) as [_ [code Hres]]. discriminate. }
    destruct (H5 A B C D) as [Hlog0 Hres]. inversion Hres as [Hself].
    assert (Hm' : DrmBuffer._mapped self <> MAP_FAILED)
      by (rewrite Hself; exact D).
    assert (Hfull : logged w (snd run) [c_munmap; c_rm_fb; c_destroy]).
    { subst has_mapping.
      apply Z.eqb_neq in Hm, Hm', Hf, Hh. rewrite Hm, Hm', Hf, Hh in Hlog.
      exact Hlog. }
    split; [reflexivity|]. split; [exact Hfull|]. split.
    + apply (logged_app _ _ _ _ _ Hlog0) in Hfull. exact Hfull.
    + specialize (L5 A B C D).
      subst c_munmap c_rm_fb c_destroy. rewrite Hself. exact L5.
Qed.

Lemma cleanup_reverse_guarded_witness :
  let drv := demo_driver no_failure in
  let run := DrmBuffer.ctor drv 3 128 96 boot in
  fst run = Ok demo_surface /\
  logged boot (snd (DrmBuffer.dtor drv demo_surface (snd run)))
    [ioctl_create_dumb 3 128 96 32;
     drm_add_fb2 3 128 96 DRM_FORMAT_ARGB8888 1 576;
     ioctl_map_dumb 3 1; sys_mmap 55296 3 1 3 0x100000;
     sys_munmap 0x7f0000000000 55296; drm_rm_fb 3 41;
     ioctl_destroy_dumb 3 1].
Proof.
  intros drv run. split; [reflexivity|].
  destruct (cleanup_reverse_guarded drv demo_surface (snd run))
    as [_ [_ [_ Hctor]]].
  destruct (Hctor 3 128 96 boot) as [_ [_ [Hlog _]]];
    try (intro E; discriminate E); [reflexivity|].
  exact Hlog.
Defined.

(** C2 as stated fails: a release is not skipped merely because its
    sub-resource was never established, and the teardown is not safe on
    a partially constructed surface.  [_handle] has no initialiser, so
    on the object as it is before [create] runs the destructor would
    deallocate whatever handle the storage held.  And on the object a
    failed framebuffer registration leaves behind -- handle recorded,
    buffer already deallocated by [create] itself -- the destructor
    would deallocate the buffer a second time.  (The class declares no
    move operation, so there is no moved-from surface.) *)
Lemma cleanup_reverse_guarded_counterexample :
  let drv := demo_driver fail_register in
  let nothing_established := DrmBuffer.fresh drv 3 128 96 in
  let registration_failed :=
    DrmBuffer.with_alloc nothing_established (snd (alloc_reply drv 3 128 96)) in
  let failed := DrmBuffer.ctor drv 3 128 96 boot in
  let teardown := DrmBuffer.dtor drv registration_failed (snd failed) in
  w_trace (snd (DrmBuffer.dtor drv nothing_established boot))
    = [ioctl_destroy_dumb 3 0xdeadbeef] /\
  lifo drv [ioctl_destroy_dumb 3 0xdeadbeef] [] = None /\
  fst failed = Throw (system_error EINVAL "Failed to add framebuffer") /\
  w_trace (snd teardown)
    = [ioctl_create_dumb 3 128 96 32;
       drm_add_fb2 3 128 96 DRM_FORMAT_ARGB8888 1 576;
       ioctl_destroy_dumb 3 1; ioctl_destroy_dumb 3 1] /\
  lifo drv (w_trace (snd teardown)) [] = None.
Proof.
  vm_compute. repeat split; reflexivity.
Qed.

(** ** Output Controller: topology discovery *)

Lemma after_app drv w t u : after drv w (t ++ u) = after drv (after drv w t) u.
Proof. unfold after. apply fold_left_app. Qed.

Lemma after_trace drv t w : w_trace (after drv w t) = w_trace w ++ t.
Proof.
  revert w. induction t as [|c t IH]; intros w.
  - simpl. rewrite app_nil_r. reflexivity.
  - change (after drv w (c :: t)) with (after drv (log_call drv w c) t).
    rewrite IH. simpl. rewrite <- app_assoc. reflexivity.
Qed.

Lemma freed_connectors_discard fd ids cs :
  (List.length cs <= List.length ids)%nat ->
  freed_connectors (discard_calls fd ids cs) = cs.
Proof.
  revert cs. induction ids as [|id ids IH]; intros [|c cs] Hlen;
    simpl in *; try reflexivity; try lia.
  unfold freed_connectors, discard_calls in *. simpl.
  f_equal. apply IH. lia.
Qed.

Lemma freed_connectors_app t u :
  freed_connectors (t ++ u) = freed_connectors t ++ freed_connectors u.
Proof. unfold freed_connectors. apply flat_map_app. Qed.

Lemma replies_length drv fd i ids :
  List.length (connector_replies drv fd i ids) = List.length ids.
Proof.
  revert i. induction ids as [|id ids IH]; intros i; simpl; auto.
Qed.

Section Scan.
Variables (drv : Driver) (fd : Z).

(** The scan stops at the first connected connector, having freed every
    descriptor before it. *)
Lemma scan_selected (pre : list drmModeConnector) :
  forall ids i w c rest,
    connector_replies drv fd i ids = map Some pre ++ Some c :: rest ->
    Forall unconnected pre ->
    is_connected (connection c) = true ->
    DrmDevice.find_connector drv fd i ids w =
    (Ok (Some c),
     after drv w (discard_calls fd ids pre
                  ++ [drm_get_connector fd (nth (List.length pre) ids 0)])).
Proof.
  induction pre as [|p pre IH]; intros ids i w c rest Hrep Hpre Hc.
  - destruct ids as [|id ids]; [discriminate|].
    simpl in Hrep. inversion Hrep as [[Hd Hrest]].
    unfold discard_calls. destruct ids; simpl;
      unfold bind, sys, ret; rewrite Hd, Hc; reflexivity.
  - destruct ids as [|id ids]; [discriminate|].
    simpl in Hrep. inversion Hrep as [[Hd Hrest]].
    inversion Hpre as [|? ? Hp Hpre']; subst.
    simpl. unfold bind at 1. unfold sys at 1. rewrite Hd.
    unfold unconnected in Hp. rewrite Hp.
    unfold bind at 1. unfold sys at 1.
    rewrite (IH ids (S i) _ c rest Hrest Hpre' Hc).
    reflexivity.
Qed.

(** With no connected connector the scan frees every descriptor and
    leaves [_connector] null. *)
Lemma scan_none (all : list drmModeConnector) :
  forall ids i w,
    connector_replies drv fd i ids = map Some all ->
    Forall unconnected all ->
    DrmDevice.find_connector drv fd i ids w =
    (Ok None, after drv w (discard_calls fd ids all)).
Proof.
  induction all as [|p all IH]; intros ids i w Hrep Hall.
  - destruct ids as [|id ids]; [reflexivity | discriminate].
  - destruct ids as [|id ids]; [discriminate|].
    simpl in Hrep. inversion Hrep as [[Hd Hrest]].
    inversion Hall as [|? ? Hp Hall']; subst.
    simpl. unfold bind at 1. unfold sys at 1. rewrite Hd.
    unfold unconnected in Hp. rewrite Hp.
    unfold bind at 1. unfold sys at 1.
    rewrite (IH ids (S i) _ Hrest Hall').
    reflexivity.
Qed.

(** A null reply reached by the scan is dereferenced. *)
Lemma scan_null (pre : list drmModeConnector) :
  forall ids i w rest,
    connector_replies drv fd i ids = map Some pre ++ None :: rest ->
    Forall unconnected pre ->
    DrmDevice.find_connector drv fd i ids w =
    (Undefined,
     after drv w (discard_calls fd ids pre
                  ++ [drm_get_connector fd (nth (List.length pre) ids 0)])).
Proof.
  induction pre as [|p pre IH]; intros ids i w rest Hrep Hpre.
  - destruct ids as [|id ids]; [discriminate|].
    simpl in Hrep. inversion Hrep as [[Hd Hrest]].
    unfold discard_calls. destruct ids; simpl;
      unfold bind, sys, undefined; rewrite Hd; reflexivity.
  - destruct ids as [|id ids]; [discriminate|].
    simpl in Hrep. inversion Hrep as [[Hd Hrest]].
    inversion Hpre as [|? ? Hp Hpre']; subst.
    simpl. unfold bind at 1. unfold sys at 1. rewrite Hd.
    unfold unconnected in Hp. rewrite Hp.
    unfold bind at 1. unfold sys at 1.
    rewrite (IH ids (S i) _ rest Hrest Hpre').
    reflexivity.
Qed.

(** Every list of replies is of one of the three shapes above. *)
Lemma replies_shape (rs : list (option drmModeConnector)) :
  (exists all, rs = map Some all /\ Forall unconnected all) \/
  (exists pre c rest, rs = map Some pre ++ Some c :: rest /\
     Forall unconnected pre /\ is_connected (connection c) = true) \/
  (exists pre rest, rs = map Some pre ++ None :: rest /\
     Forall unconnected pre).
Proof.
  induction rs as [|[c|] rs IH].
  - left. exists []. split; [reflexivity | constructor].
  - destruct (is_connected (connection c)) eqn:Hc.
    + right. left. exists [], c, rs. repeat split; auto.
    + destruct IH as [[all [-> Hall]]|[[pre [c' [rest [-> [Hpre Hc']]]]]
                                      |[pre [rest [-> Hpre]]]]].
      * left. exists (c :: all). split; [reflexivity|].
        constructor; assumption.
      * right. left. exists (c :: pre), c', rest.
        repeat split; auto; constructor; assumption.
      * right. right. exists (c :: pre), rest.
        split; [reflexivity|]. constructor; assumption.
  - right. right. exists [], rs. split; [reflexivity | constructor].
Qed.

End Scan.

(** ** Output Controller: the CRTC *)

Lemma land_pow2_eqb (mask i : Z) :
  0 <= i -> (Z.land mask (2 ^ i) =? 0) = negb (Z.testbit mask i).
Proof.
  intros Hi. destruct (Z.testbit mask i) eqn:Hb; simpl.
  - apply Z.eqb_neq. intros E.
    assert (Hbit : Z.testbit (Z.land mask (2 ^ i)) i = true).
    { rewrite Z.land_spec, Hb, Z.pow2_bits_true by assumption. reflexivity. }
    rewrite E, Z.bits_0 in Hbit. discriminate.
  - apply Z.eqb_eq. apply Z.bits_inj'. intros m Hm.
    rewrite Z.land_spec, Z.bits_0, Z.pow2_bits_eqb by assumption.
    destruct (Z.eqb_spec i m) as [->|]; [rewrite Hb|];
      rewrite ?andb_false_r; reflexivity.
Qed.

Lemma shl1_in_range (i : Z) : 0 <= i < 32 -> shl1 i = Some (2 ^ i).
Proof.
  intros Hi. unfold shl1, wrap32.
  destruct (Z.leb_spec 0 i); [|lia]. destruct (Z.ltb_spec i 32); [|lia].
  cbn [andb]. rewrite Z.shiftl_1_l, Z.mod_small; [reflexivity|].
  split; [apply Z.pow_nonneg; lia | apply Z.pow_lt_mono_r; lia].
Qed.

(** The CRTC loop returns the entry at the first index whose bit is set. *)
Lemma find_crtc_first (mask : Z) (n : nat) :
  forall ids i w,
    0 <= i -> i + Z.of_nat n < 32 -> (n < List.length ids)%nat ->
    Z.testbit mask (i + Z.of_nat n) = true ->
    (forall j, (j < n)%nat -> Z.testbit mask (i + Z.of_nat j) = false) ->
    DrmDevice.find_crtc mask i ids w = (Ok (nth n ids 0), w).
Proof.
  induction n as [|n IH]; intros ids i w Hi Hlt Hlen Hset Hclear;
    (destruct ids as [|id ids]; [simpl in Hlen; lia|]); simpl.
  - rewrite shl1_in_range by lia. rewrite land_pow2_eqb by lia.
    replace (i + Z.of_nat 0) with i in Hset by lia. rewrite Hset. reflexivity.
  - rewrite shl1_in_range by lia. rewrite land_pow2_eqb by lia.
    specialize (Hclear 0%nat ltac:(lia)) as H0.
    replace (i + Z.of_nat 0) with i in H0 by lia. rewrite H0. simpl.
    apply IH; try lia.
    + simpl in Hlen. lia.
    + replace (i + 1 + Z.of_nat n) with (i + Z.of_nat (S n)) by lia.
      exact Hset.
    + intros j Hj.
      replace (i + 1 + Z.of_nat j) with (i + Z.of_nat (S j)) by lia.
      apply Hclear. lia.
Qed.

(** With no bit set among the listed indices the loop leaves 0. *)
Lemma find_crtc_none (mask : Z) :
  forall ids i w,
    0 <= i -> i + Z.of_nat (List.length ids) <= 32 ->
    (forall j, (j < List.length ids)%nat ->
       Z.testbit mask (i + Z.of_nat j) = false) ->
    DrmDevice.find_crtc mask i ids w = (Ok 0, w).
Proof.
  induction ids as [|id ids IH]; intros i w Hi Hlen Hclear; simpl.
  - reflexivity.
  - simpl in Hlen. rewrite shl1_in_range by lia.
    rewrite land_pow2_eqb by lia.
    specialize (Hclear 0%nat ltac:(simpl; lia)) as H0.
    replace (i + Z.of_nat 0) with i in H0 by lia. rewrite H0. simpl.
    apply IH; try lia.
    intros j Hj.
    replace (i + 1 + Z.of_nat j) with (i + Z.of_nat (S j)) by lia.
    apply Hclear. simpl. lia.
Qed.


(** ** Output Controller: construction *)

Lemma ctor_opened drv path w :
  d_open drv path O_RDWR <> -1 ->
  DrmDevice.ctor drv path w =
  on_throw (DrmDevice.initialize drv (DrmDevice.fresh (d_open drv path O_RDWR)))
           (autofd.dtor drv (d_open drv path O_RDWR))
           (after drv w [sys_open path O_RDWR]).
Proof.
  intros Hfd. unfold DrmDevice.ctor, autofd.ctor, bind at 1.
  unfold bind at 1. unfold sys at 1.
  apply Z.eqb_neq in Hfd. rewrite Hfd. reflexivity.
Qed.

Lemma initialize_scanned drv self res w :
  d_get_resources drv (DrmDevice._fd self) = Some res ->
  DrmDevice.initialize drv self w =
  (c <- DrmDevice.find_connector drv (DrmDevice._fd self) 0 (connectors res) ;;
   match c with
   | None => throw NoDisplayError
   | Some conn =>
       mode <- DrmDevice.preferred_mode conn ;;
       DrmDevice.find_encoder_and_crtc drv self res conn mode
   end) (after drv w [drm_get_resources (DrmDevice._fd self)]).
Proof.
  intros Hres. unfold DrmDevice.initialize. unfold bind at 1.
  unfold sys at 1. rewrite Hres. reflexivity.
Qed.

(** What a successful construction retains. *)
Lemma built_device drv self res conn w dev w' :
  (mode <- DrmDevice.preferred_mode conn ;;
   DrmDevice.find_encoder_and_crtc drv self res conn mode) w = (Ok dev, w') ->
  DrmDevice._fd dev = DrmDevice._fd self /\
  DrmDevice._connector dev = Some conn /\
  DrmDevice._resources dev = Some res /\
  DrmDevice._encoder dev
    = d_get_encoder drv (DrmDevice._fd self) (encoder_id conn) /\
  DrmDevice._encoder dev <> None.
Proof.
  unfold DrmDevice.preferred_mode, DrmDevice.find_encoder_and_crtc.
  destruct (modes conn) as [|m ms]; [discriminate|].
  unfold bind at 1. unfold ret at 1. unfold bind at 1. unfold sys at 1.
  destruct (d_get_encoder drv (DrmDevice._fd self) (encoder_id conn))
    as [enc|]; [|discriminate].
  unfold bind.
  destruct (DrmDevice.resolve_crtc enc res _) as [[crtc|e|] w2];
    try discriminate.
  destruct (crtc =? 0); [discriminate|].
  unfold ret. intros H. inversion H; subst. simpl.
  repeat split; discriminate.
Qed.



(** C10.  The connector scan reads [connection] through the pointer each
    query returns without a null check, and [initialize] reads
    [modes[0]] of the selected connector without looking at the mode
    count.  The scan is undefined exactly when a query it performs (all
    those before it having returned unconnected descriptors) returns
    null; the mode read is undefined exactly when the connector has no
    mode; and in either situation construction as a whole is undefined.
    So the reads are safe only if every performed query succeeds and
    the selected connector advertises a mode. *)
Theorem discovery_reads_unchecked (drv : Driver) (fd : Z) :
  (forall ids i w,
     fst (DrmDevice.find_connector drv fd i ids w) = Undefined <->
     exists pre rest,
       connector_replies drv fd i ids = map Some pre ++ None :: rest /\
       Forall unconnected pre) /\
  (forall c w,
     fst (DrmDevice.preferred_mode c w) = Undefined <-> modes c = []) /\
  (forall self res w pre rest,
     DrmDevice._fd self = fd ->
     d_get_resources drv fd = Some res ->
     connector_replies drv fd 0 (connectors res)
       = map Some pre ++ None :: rest ->
     Forall unconnected pre ->
     fst (DrmDevice.initialize drv self w) = Undefined) /\
  (forall self res w pre c rest,
     DrmDevice._fd self = fd ->
     d_get_resources drv fd = Some res ->
     connector_replies drv fd 0 (connectors res)
       = map Some pre ++ Some c :: rest ->
     Forall unconnected pre ->
     is_connected (connection c) = true ->
     modes c = [] ->
     fst (DrmDevice.initialize drv self w) = Undefined).
Proof.
  split; [|split; [|split]].
  - intros ids i w. split.
    + intros Hund.
      destruct (replies_shape (connector_replies drv fd i ids))
        as [[all [H Hall]]|[[pre [c [rest [H [Hpre Hc]]]]]
                           |[pre [rest [H Hpre]]]]].
      * rewrite (scan_none drv fd all ids i w H Hall) in Hund. discriminate.
      * rewrite (scan_selected drv fd pre ids i w c rest H Hpre Hc) in Hund.
        discriminate.
      * exists pre, rest. auto.
    + intros [pre [rest [H Hpre]]].
      rewrite (scan_null drv fd pre ids i w rest H Hpre). reflexivity.
  - intros c w. unfold DrmDevice.preferred_mode.
    destruct (modes c); simpl; split; intros H; try discriminate; reflexivity.
  - intros self res w pre rest Hfd Hres Hrep Hpre. subst fd.
    rewrite (initialize_scanned drv self res w Hres). unfold bind at 1.
    rewrite (scan_null drv _ pre _ _ _ rest Hrep Hpre). reflexivity.
  - intros self res w pre c rest Hfd Hres Hrep Hpre Hc Hmodes. subst fd.
    rewrite (initialize_scanned drv self res w Hres). unfold bind at 1.
    rewrite (scan_selected drv _ pre _ _ _ c rest Hrep Hpre Hc).
    unfold bind at 1. unfold DrmDevice.preferred_mode. rewrite Hmodes.
    reflexivity.
Qed.

Lemma discovery_reads_unchecked_witness :
  fst (DrmDevice.initialize (demo_driver null_connector)
         (DrmDevice.fresh 3) boot) = Undefined /\
  fst (DrmDevice.initialize (demo_driver no_modes)
         (DrmDevice.fresh 3) boot) = Undefined.
Proof.
  split.
  - destruct (discovery_reads_unchecked (demo_driver null_connector) 3)
      as [_ [_ [Hnull _]]].
    assert (Hpre : Forall unconnected [demo_unplugged])
      by (repeat constructor).
    exact (Hnull (DrmDevice.fresh 3) demo_resources boot [demo_unplugged] []
             eq_refl eq_refl eq_refl Hpre).
  - destruct (discovery_reads_unchecked (demo_driver no_modes) 3)
      as [_ [_ [_ Hmodes]]].
    assert (Hpre : Forall unconnected [demo_unplugged])
      by (repeat constructor).
    exact (Hmodes (DrmDevice.fresh 3) demo_resources boot [demo_unplugged]
             (demo_connector no_modes) []
             eq_refl eq_refl eq_refl Hpre eq_refl eq_refl).
Defined.

(** C6.  Once the encoder of the selected connector is retrieved, the
    CRTC is the encoder's own [crtc_id] when that is non-zero.
    Otherwise it is the entry of the global CRTC list at the first index
    whose bit is set in [possible_crtcs]; construction succeeds with
    that entry when it is non-zero.  If the encoder designates none and
    the entry found is 0, or no listed index has its bit set,
    construction fails with [NoCrtcError]. *)
Theorem crtc_resolution (drv : Driver) (self : DrmDevice.state)
    (res : drmModeRes) (conn : drmModeConnector) (mode : drmModeModeInfo)
    (enc : drmModeEncoder) (w : world) :
  let fd := DrmDevice._fd self in
  let w1 := after drv w [drm_get_encoder fd (encoder_id conn)] in
  let built crtc :=
    {| DrmDevice._fd := fd; DrmDevice._connector := Some conn;
       DrmDevice._encoder := Some enc; DrmDevice._resources := Some res;
       DrmDevice._mode := mode; DrmDevice._crtc_id := crtc |} in
  let run := DrmDevice.find_encoder_and_crtc drv self res conn mode w in
  d_get_encoder drv fd (encoder_id conn) = Some enc ->
  (crtc_id enc <> 0 -> run = (Ok (built (crtc_id enc)), w1)) /\
  (crtc_id enc = 0 ->
   forall n, (n < List.length (crtcs res))%nat -> (n < 32)%nat ->
     first_eligible (possible_crtcs enc) n ->
     (nth n (crtcs res) 0 <> 0 ->
        run = (Ok (built (nth n (crtcs res) 0)), w1)) /\
     (nth n (crtcs res) 0 = 0 -> run = (Throw NoCrtcError, w1))) /\
  (crtc_id enc = 0 ->
   (List.length (crtcs res) <= 32)%nat ->
   (forall j, (j < List.length (crtcs res))%nat ->
      Z.testbit (possible_crtcs enc) (Z.of_nat j) = false) ->
   run = (Throw NoCrtcError, w1)) /\
  (forall w0 more,
     d_get_resources drv fd = Some res ->
     DrmDevice.find_connector drv fd 0 (connectors res)
       (after drv w0 [drm_get_resources fd]) = (Ok (Some conn), w) ->
     modes conn = mode :: more ->
     DrmDevice.initialize drv self w0 = run).
Proof.
  intros fd w1 built run Henc.
  assert (Hrun : run =
    (crtc <- DrmDevice.resolve_crtc enc res ;;
     if crtc =? 0 then throw NoCrtcError else ret (built crtc)) w1).
  { subst run. unfold DrmDevice.find_encoder_and_crtc. unfold bind at 1.
    unfold sys at 1. fold fd. rewrite Henc. reflexivity. }
  split; [|split; [|split]];
    [| | |intros w0 more Hres Hscan Hmodes;
          rewrite (initialize_scanned drv self res w0 Hres);
          unfold bind at 1; fold fd; rewrite Hscan;
          unfold bind at 1, DrmDevice.preferred_mode; rewrite Hmodes;
          reflexivity];
    rewrite Hrun; unfold bind, DrmDevice.resolve_crtc.
  - intros Hnz. apply Z.eqb_neq in Hnz. rewrite Hnz. unfold ret at 1.
    rewrite Hnz. reflexivity.
  - intros Hz n Hlen H32 [Hset Hclear]. apply Z.eqb_eq in Hz. rewrite Hz.
    rewrite (find_crtc_first (possible_crtcs enc) n (crtcs res) 0 w1);
      try lia; try assumption.
    split; intros Hentry.
    + apply Z.eqb_neq in Hentry. rewrite Hentry. reflexivity.
    + apply Z.eqb_eq in Hentry. rewrite Hentry. reflexivity.
  - intros Hz Hlen Hclear. apply Z.eqb_eq in Hz. rewrite Hz.
    rewrite (find_crtc_none (possible_crtcs enc) (crtcs res) 0 w1);
      try lia; try assumption.
    reflexivity.
Qed.

Lemma crtc_resolution_witness :
  fst (DrmDevice.find_encoder_and_crtc (demo_driver no_failure)
         (DrmDevice.fresh 3) demo_resources (demo_connector no_failure)
         demo_mode boot)
  = Ok {| DrmDevice._fd := 3;
          DrmDevice._connector := Some (demo_connector no_failure);
          DrmDevice._encoder := Some (demo_encoder no_failure);
          DrmDevice._resources := Some demo_resources;
          DrmDevice._mode := demo_mode; DrmDevice._crtc_id := 38 |} /\
  fst (DrmDevice.find_encoder_and_crtc (demo_driver fail_crtc)
         (DrmDevice.fresh 3) demo_resources (demo_connector fail_crtc)
         demo_mode boot)
  = Throw NoCrtcError.
Proof.
  split.
  - destruct (crtc_resolution (demo_driver no_failure) (DrmDevice.fresh 3)
                demo_resources (demo_connector no_failure) demo_mode
                (demo_encoder no_failure) boot eq_refl) as [_ [Hscan _]].
    destruct (Hscan eq_refl 0%nat) as [Hpick _].
    + simpl. lia.
    + lia.
    + split; [reflexivity | intros j Hj; lia].
    + rewrite Hpick; [reflexivity | discriminate].
  - destruct (crtc_resolution (demo_driver fail_crtc) (DrmDevice.fresh 3)
                demo_resources (demo_connector fail_crtc) demo_mode
                (demo_encoder fail_crtc) boot eq_refl) as [_ [_ [Hnone _]]].
    rewrite Hnone; [reflexivity | reflexivity | simpl; lia |].
    intros j Hj. apply Z.testbit_0_l.
Defined.

(** ** Whole-program invariants *)

Section Respects.
Variables (R : world -> world -> Prop) (S : exn -> Prop) (P : call -> Prop).
Variable drv : Driver.
Hypothesis R_refl : forall w, R w w.
Hypothesis R_trans : forall a b c, R a b -> R b c -> R a c.
Hypothesis R_sys : forall c w, P c -> R w (snd (sys drv c w)).
Hypothesis R_cout : forall s w, R w (snd (cout s w)).
Hypothesis R_fill : forall self p w,
  R w (snd (DrmBuffer.fill_chessboard self p w)).
Hypothesis S_core : forall e, In (what_arg_of e) core_failures -> S e.

Lemma respects_ret {A} (a : A) : respects R S (ret a).
Proof. intros w. split; [apply R_refl | discriminate]. Qed.

Lemma respects_undefined {A} : respects R S (@undefined A).
Proof. intros w. split; [apply R_refl | discriminate]. Qed.

Lemma respects_throw {A} (e : exn) : S e -> respects R S (@throw A e).
Proof.
  intros He w. split; [apply R_refl|].
  intros e' H. inversion H. subst. exact He.
Qed.

Lemma respects_throw_errno {A} (msg : string) :
  In msg core_failures -> respects R S (@throw_errno A msg).
Proof.
  intros Hmsg w. split; [apply R_refl|].
  intros e' H. inversion H. subst. apply S_core. exact Hmsg.
Qed.

Lemma respects_bind {A B} (m : M A) (k : A -> M B) :
  respects R S m -> (forall a, respects R S (k a)) -> respects R S (bind m k).
Proof.
  intros Hm Hk w. unfold bind. destruct (Hm w) as [Rm Sm].
  destruct (m w) as [[a|e|] w1]; simpl in *.
  - destruct (Hk a w1) as [Rk Sk]. split; [eapply R_trans; eauto | exact Sk].
  - split; [assumption|].
    intros e0 H. inversion H; subst. apply Sm. reflexivity.
  - split; [assumption | discriminate].
Qed.

Lemma respects_finally {A} (m : M A) (d : M unit) :
  respects R S m -> respects R S d -> respects R S (finally m d).
Proof.
  intros Hm Hd w. unfold finally. destruct (Hm w) as [Rm Sm].
  destruct (m w) as [[a|e|] w1]; simpl in *.
  - destruct (Hd w1) as [Rd Sd].
    destruct (d w1) as [[u|e|] w2]; simpl in *;
      (split; [eapply R_trans; eauto|]);
      intros e0 H;
      first [ discriminate H
            | inversion H; subst;
              solve [apply Sm; reflexivity | apply Sd; reflexivity] ].
  - destruct (Hd w1) as [Rd Sd].
    destruct (d w1) as [[u|e'|] w2]; simpl in *;
      (split; [eapply R_trans; eauto|]);
      intros e0 H;
      first [ discriminate H
            | inversion H; subst;
              solve [apply Sm; reflexivity | apply Sd; reflexivity] ].
  - split; [assumption | discriminate].
Qed.

Lemma respects_on_throw {A} (m : M A) (d : M unit) :
  respects R S m -> respects R S d -> respects R S (on_throw m d).
Proof.
  intros Hm Hd w. unfold on_throw. destruct (Hm w) as [Rm Sm].
  destruct (m w) as [[a|e|] w1]; simpl in *.
  - split; [assumption | discriminate].
  - destruct (Hd w1) as [Rd Sd].
    destruct (d w1) as [[u|e'|] w2]; simpl in *;
      (split; [eapply R_trans; eauto|]);
      intros e0 H;
      first [ discriminate H
            | inversion H; subst;
              solve [apply Sm; reflexivity | apply Sd; reflexivity] ].
  - split; [assumption | discriminate].
Qed.

Lemma respects_sys (c : call) : P c -> respects R S (sys drv c).
Proof. intros Hc w. split; [apply R_sys; exact Hc | discriminate]. Qed.

Lemma respects_cout (s : string) : respects R S (cout s).
Proof. intros w. split; [apply R_cout | discriminate]. Qed.

Lemma respects_fill self p : respects R S (DrmBuffer.fill_chessboard self p).
Proof.
  intros w. split; [apply R_fill|].
  intros e H. unfold DrmBuffer.fill_chessboard in H. cbn [fst] in H.
  destruct (DrmBuffer.fill_defined self); discriminate H.
Qed.

(** One step of decomposing a program into its primitives. *)
Ltac respects_step :=
  match goal with
  | |- respects _ _ (bind _ _) => apply respects_bind; [|intro]
  | |- respects _ _ (ret _) => apply respects_ret
  | |- respects _ _ undefined => apply respects_undefined
  | |- respects _ _ (finally _ _) => apply respects_finally
  | |- respects _ _ (on_throw _ _) => apply respects_on_throw
  | |- respects _ _ (cout _) => apply respects_cout
  | |- respects _ _ (DrmBuffer.fill_chessboard _ _) => apply respects_fill
  | |- respects _ _ (throw_errno _) =>
      apply respects_throw_errno; simpl; tauto
  | |- respects _ _ (throw _) =>
      apply respects_throw; apply S_core; simpl; tauto
  | |- respects _ _ (sys _ _) => apply respects_sys; auto
  | |- respects _ _ (when ?b _) => unfold when
  | |- respects _ _ (let '(_, _) := ?p in _) => destruct p
  | |- respects _ _ (if ?b then _ else _) => destruct b
  | |- respects _ _ (match ?x with _ => _ end) => destruct x
  end.

Section Parts.
Hypothesis P_acquire : forall c, is_acquisition c = true -> P c.
Hypothesis P_release : forall c, is_release c = true -> P c.
Hypothesis P_get_resources : forall fd, P (drm_get_resources fd).
Hypothesis P_get_connector : forall fd id, P (drm_get_connector fd id).
Hypothesis P_free_connector : forall c, P (drm_free_connector c).
Hypothesis P_get_encoder : forall fd id, P (drm_get_encoder fd id).
Hypothesis P_free_encoder : forall e, P (drm_free_encoder e).
Hypothesis P_free_resources : forall r, P (drm_free_resources r).
Hypothesis P_set_crtc : forall a b c d e f g, P (drm_set_crtc a b c d e f g).
Hypothesis P_cin_get : P cin_get.

Lemma respects_buffer_ctor fd width height :
  respects R S (DrmBuffer.ctor drv fd width height).
Proof.
  unfold DrmBuffer.ctor, DrmBuffer.create.
  repeat respects_step; apply P_acquire || apply P_release; reflexivity.
Qed.

Lemma respects_buffer_dtor self : respects R S (DrmBuffer.dtor drv self).
Proof.
  unfold DrmBuffer.dtor, DrmBuffer.cleanup.
  repeat respects_step; apply P_release; reflexivity.
Qed.

Lemma respects_find_connector fd ids :
  forall i, respects R S (DrmDevice.find_connector drv fd i ids).
Proof.
  induction ids as [|id ids IH]; intros i; simpl.
  - apply respects_ret.
  - repeat respects_step; auto.
Qed.

Lemma respects_find_crtc mask ids :
  forall i, respects R S (DrmDevice.find_crtc mask i ids).
Proof.
  induction ids as [|id ids IH]; intros i; simpl.
  - apply respects_ret.
  - repeat respects_step; auto.
Qed.

Lemma respects_initialize self : respects R S (DrmDevice.initialize drv self).
Proof.
  unfold DrmDevice.initialize, DrmDevice.find_encoder_and_crtc,
    DrmDevice.preferred_mode, DrmDevice.resolve_crtc.
  repeat first [ apply respects_find_connector | apply respects_find_crtc
               | respects_step ].
Qed.

Lemma respects_device_cleanup self :
  respects R S (DrmDevice.cleanup drv self).
Proof. unfold DrmDevice.cleanup. repeat respects_step. Qed.

Lemma respects_set_crtc self fb :
  respects R S (DrmDevice.set_crtc drv self fb).
Proof. unfold DrmDevice.set_crtc. repeat respects_step. Qed.

(** The scope of [buffer] in [main], with its destructor. *)
Lemma respects_surface_scope dev p :
  respects R S
    (buffer <- DrmDevice.create_buffer drv dev ;;
     finally
       (DrmBuffer.fill_chessboard buffer p ;;
        DrmDevice.set_crtc drv dev (DrmBuffer.fb_id buffer) ;;
        cout ("If you see a chessboard pattern, "
                ++ alpha_name p
                ++ " alpha blending mode is incorrect." ++ endl)%string ;;
        sys drv cin_get)
       (DrmBuffer.dtor drv buffer)).
Proof.
  unfold DrmDevice.create_buffer.
  repeat first [ apply respects_buffer_ctor | apply respects_buffer_dtor
               | apply respects_set_crtc | respects_step ].
Qed.

Lemma respects_core p :
  (forall path flags, P (sys_open path flags)) ->
  (forall fd, P (sys_close fd)) ->
  respects R S (core drv p).
Proof.
  intros P_open P_close.
  unfold core, DrmDevice.ctor, DrmDevice.dtor, autofd.ctor, autofd.dtor.
  fold (DrmDevice.create_buffer drv).
  repeat first [ apply respects_surface_scope | apply respects_initialize
               | apply respects_device_cleanup | respects_step ].
Qed.

End Parts.
End Respects.

Lemma logs_refl P w : logs P w w.
Proof. exists []. rewrite app_nil_r. split; [reflexivity | constructor]. Qed.

Lemma logs_same_trace P w w' : w_trace w' = w_trace w -> logs P w w'.
Proof.
  intros H. exists []. rewrite app_nil_r. split; [exact H | constructor].
Qed.

Lemma logs_trans P a b c : logs P a b -> logs P b c -> logs P a c.
Proof.
  intros [t [Ht Pt]] [u [Hu Pu]]. exists (t ++ u). split.
  - rewrite Hu, Ht, app_assoc. reflexivity.
  - apply Forall_app. split; assumption.
Qed.

Lemma logs_sys P drv c w : P c -> logs P w (snd (sys drv c w)).
Proof. intros Hc. exists [c]. split; [reflexivity | repeat constructor; exact Hc]. Qed.

Lemma not_close_acquisition c : is_acquisition c = true -> not_close c.
Proof. destruct c; simpl; intros H; try discriminate; reflexivity. Qed.

Lemma not_close_release c : is_release c = true -> not_close c.
Proof. destruct c; simpl; intros H; try discriminate; reflexivity. Qed.

(** What [main] does with the outcome of the [try] block. *)
Lemma main_accepted drv argv p w :
  parse_args argv = Some p ->
  main drv argv w =
  match core drv p w with
  | (Ok _, w1) => (Ok 0, w1)
  | (Throw e, w1) =>
      (Ok (-1), snd (cerr ("Error: " ++ what drv e ++ endl)%string w1))
  | (Undefined, w1) => (Undefined, w1)
  end.
Proof.
  intros Hp. unfold main. rewrite Hp. unfold try_catch, bind.
  destruct (core drv p w) as [[u|e|] w1]; reflexivity.
Qed.

Lemma device_dtor_run drv self w :
  DrmDevice.dtor drv self w =
  (Ok tt,
   after drv w (opt_call drm_free_encoder (DrmDevice._encoder self)
                ++ opt_call drm_free_connector (DrmDevice._connector self)
                ++ opt_call drm_free_resources (DrmDevice._resources self)
                ++ [sys_close (DrmDevice._fd self)])).
Proof.
  unfold DrmDevice.dtor, DrmDevice.cleanup, autofd.dtor.
  destruct (DrmDevice._encoder self), (DrmDevice._connector self),
    (DrmDevice._resources self); reflexivity.
Qed.

Lemma initialize_fd drv self w dev w' :
  DrmDevice.initialize drv self w = (Ok dev, w') ->
  DrmDevice._fd dev = DrmDevice._fd self.
Proof.
  unfold DrmDevice.initialize. unfold bind at 1. unfold sys at 1.
  destruct (d_get_resources drv (DrmDevice._fd self)) as [res|];
    [|discriminate].
  unfold bind at 1.
  destruct (DrmDevice.find_connector drv _ _ _ _) as [[[conn|]|e|] w1];
    try discriminate.
  intros H. apply built_device in H. tauto.
Qed.

Section Closing.
Variable drv : Driver.

(** Everything between opening the device and closing it. *)
Lemma initialize_no_close self :
  respects (logs not_close) (fun _ => True) (DrmDevice.initialize drv self).
Proof.
  apply (respects_initialize (logs not_close) (fun _ => True) not_close drv);
    auto using logs_refl, logs_sys; try reflexivity.
  apply logs_trans.
Qed.

Lemma surface_scope_no_close dev p :
  respects (logs not_close) (fun _ => True)
    (buffer <- DrmDevice.create_buffer drv dev ;;
     finally
       (DrmBuffer.fill_chessboard buffer p ;;
        DrmDevice.set_crtc drv dev (DrmBuffer.fb_id buffer) ;;
        cout ("If you see a chessboard pattern, "
                ++ alpha_name p
                ++ " alpha blending mode is incorrect." ++ endl)%string ;;
        sys drv cin_get)
       (DrmBuffer.dtor drv buffer)).
Proof.
  apply (respects_surface_scope (logs not_close) (fun _ => True) not_close drv);
    auto using logs_refl, logs_sys, not_close_acquisition, not_close_release;
    try reflexivity; try (intros; apply logs_same_trace; reflexivity).
  apply logs_trans.
Qed.

(** [core] once the device is open: either construction completes and
    the scope of [drm_device] runs, or the handle alone is closed. *)
Lemma core_opened p w :
  let fd := d_open drv "/dev/dri/card0" O_RDWR in
  fd <> -1 ->
  core drv p w =
  match DrmDevice.initialize drv (DrmDevice.fresh fd)
          (after drv w [sys_open "/dev/dri/card0" O_RDWR]) with
  | (Ok dev, w2) =>
      finally
        (buffer <- DrmDevice.create_buffer drv dev ;;
         finally
           (DrmBuffer.fill_chessboard buffer p ;;
            DrmDevice.set_crtc drv dev (DrmBuffer.fb_id buffer) ;;
            cout ("If you see a chessboard pattern, "
                    ++ alpha_name p
                    ++ " alpha blending mode is incorrect." ++ endl)%string ;;
            sys drv cin_get)
           (DrmBuffer.dtor drv buffer))
        (DrmDevice.dtor drv dev) w2
  | (Throw e, w2) => (Throw e, after drv w2 [sys_close fd])
  | (Undefined, w2) => (Undefined, w2)
  end.
Proof.
  intros fd Hfd. unfold core. unfold bind at 1.
  rewrite (ctor_opened drv _ w Hfd). fold fd. unfold on_throw.
  destruct (DrmDevice.initialize drv (DrmDevice.fresh fd) _)
    as [[dev|e|] w2]; reflexivity.
Qed.

Lemma core_closes_last p w :
  let fd := d_open drv "/dev/dri/card0" O_RDWR in
  (fd = -1 -> logged w (snd (core drv p w)) [sys_open "/dev/dri/card0" O_RDWR]) /\
  (fd <> -1 -> fst (core drv p w) <> Undefined ->
   exists mid,
     logged w (snd (core drv p w))
       (sys_open "/dev/dri/card0" O_RDWR :: mid ++ [sys_close fd]) /\
     Forall not_close mid).
Proof.
  intros fd. split.
  - intros Hfd. unfold core, DrmDevice.ctor, autofd.ctor.
    unfold bind at 1. unfold bind at 1. unfold bind at 1. unfold sys at 1.
    fold fd. rewrite Hfd. reflexivity.
  - intros Hfd. rewrite (core_opened p w Hfd). fold fd.
    set (w1 := after drv w [sys_open "/dev/dri/card0" O_RDWR]).
    assert (Hw1 : w_trace w1 = w_trace w ++ [sys_open "/dev/dri/card0" O_RDWR])
      by apply after_trace.
    destruct (initialize_no_close (DrmDevice.fresh fd) w1)
      as [[t1 [Ht1 Pt1]] _].
    destruct (DrmDevice.initialize drv (DrmDevice.fresh fd) w1)
      as [[dev|e|] w2] eqn:Einit; cbn [fst snd] in *.
    + apply initialize_fd in Einit. cbn in Einit.
      destruct (surface_scope_no_close dev p w2) as [[t2 [Ht2 Pt2]] _].
      match type of Ht2 with
      | context [bind ?m ?k w2] => set (scope := bind m k) in *
      end.
      unfold finally.
      destruct (scope w2) as [[u|e|] w3]; cbn [fst snd] in *;
        rewrite ?device_dtor_run; cbn [fst snd]; intros Hdef;
        try (exfalso; apply Hdef; reflexivity).
      all: exists (t1 ++ t2
                   ++ opt_call drm_free_encoder (DrmDevice._encoder dev)
                   ++ opt_call drm_free_connector (DrmDevice._connector dev)
                   ++ opt_call drm_free_resources (DrmDevice._resources dev)).
      all: split;
        [ unfold logged; rewrite after_trace, Ht2, Ht1, Hw1, Einit; simpl;
          repeat rewrite <- app_assoc; reflexivity
        | repeat (apply Forall_app; split); try assumption;
          destruct (DrmDevice._encoder dev), (DrmDevice._connector dev),
            (DrmDevice._resources dev); repeat constructor ].
    + intros _. exists t1. split; [|assumption].
      unfold logged. rewrite after_trace, Ht1, Hw1.
      simpl. repeat rewrite <- app_assoc. reflexivity.
    + intros Hdef. exfalso. apply Hdef. reflexivity.
Qed.

End Closing.

(** The [try] block never writes to standard error, and whatever it
    throws is one of the ten core failures. *)
Lemma core_quiet_and_classified drv p :
  respects quiet_stderr (fun e => In (what_arg_of e) core_failures)
    (core drv p).
Proof.
  apply (respects_core quiet_stderr _ (fun _ => True) drv);
    unfold quiet_stderr; intros; auto; congruence.
Qed.

Lemma main_trace drv argv p w :
  parse_args argv = Some p ->
  w_trace (snd (main drv argv w)) = w_trace (snd (core drv p w)) /\
  (fst (main drv argv w) = Undefined <-> fst (core drv p w) = Undefined).
Proof.
  intros Hp. rewrite (main_accepted drv argv p w Hp).
  destruct (core drv p w) as [[u|e|] w1]; simpl;
    (split; [reflexivity | split; intros H; try discriminate; reflexivity]).
Qed.

(** The destructor of the Output Controller frees the encoder descriptor
    if held, then the connector descriptor if held, then the resource
    list if held, and then closes the device handle -- whichever of the
    three descriptors are held.  In a whole run that opened the device,
    the handle is closed exactly once and the close is the last call
    made, after every release. *)
Lemma controller_teardown_order (drv : Driver) (self : DrmDevice.state)
    (w : world) :
  DrmDevice.dtor drv self w =
  (Ok tt,
   after drv w (opt_call drm_free_encoder (DrmDevice._encoder self)
                ++ opt_call drm_free_connector (DrmDevice._connector self)
                ++ opt_call drm_free_resources (DrmDevice._resources self)
                ++ [sys_close (DrmDevice._fd self)])) /\
  (forall argv p w0,
     parse_args argv = Some p ->
     let fd := d_open drv "/dev/dri/card0" O_RDWR in
     let run := main drv argv w0 in
     (fd = -1 -> logged w0 (snd run) [sys_open "/dev/dri/card0" O_RDWR]) /\
     (fd <> -1 -> fst run <> Undefined ->
      exists mid,
        logged w0 (snd run)
          (sys_open "/dev/dri/card0" O_RDWR :: mid ++ [sys_close fd]) /\
        Forall not_close mid)).
Proof.
  split; [apply device_dtor_run|].
  intros argv p w0 Hp fd run.
  destruct (main_trace drv argv p w0 Hp) as [Htr Hund].
  destruct (core_closes_last drv p w0) as [Hfail Hopen].
  fold fd in Hfail, Hopen. unfold logged in *. subst run. rewrite Htr.
  split; [exact Hfail|].
  intros Hfd Hdef. apply Hopen; [exact Hfd|].
  intros Hcore. apply Hdef. apply Hund. exact Hcore.
Qed.

Lemma controller_teardown_order_witness :
  let drv := demo_driver fail_bind in
  exists mid,
    logged boot (snd (main drv ["dp-alpha"; "s"]%string boot))
      (sys_open "/dev/dri/card0" O_RDWR :: mid ++ [sys_close 3]) /\
    Forall not_close mid.
Proof.
  intros drv.
  destruct (controller_teardown_order drv (DrmDevice.fresh 3) boot)
    as [_ Hrun].
  destruct (Hrun ["dp-alpha"; "s"]%string false boot eq_refl) as [_ Hopen].
  apply Hopen.
  - discriminate.
  - intros H. vm_compute in H. discriminate H.
Defined.

(** C9.  Whatever the [try] block of [main] throws is caught: [main]
    appends exactly the line ["Error: " ++ e.what()] to standard error,
    to which nothing else was written during the run, and returns -1 (a
    non-zero exit status).  The exception is one of the ten core
    failures.  When nothing is thrown, standard error is untouched and
    [main] returns 0. *)
Theorem main_reports_failure_once (drv : Driver) (argv : list string)
    (p : bool) (w : world) :
  parse_args argv = Some p ->
  let attempt := core drv p w in
  let run := main drv argv w in
  w_stderr (snd attempt) = w_stderr w /\
  (forall e, fst attempt = Throw e ->
     In (what_arg_of e) core_failures /\
     fst run = Ok (-1) /\
     exit_status (-1) <> 0 /\
     w_stderr (snd run)
       = (w_stderr w ++ "Error: " ++ what drv e ++ endl)%string /\
     w_stdout (snd run) = w_stdout (snd attempt) /\
     w_trace (snd run) = w_trace (snd attempt)) /\
  (forall u, fst attempt = Ok u ->
     fst run = Ok 0 /\ w_stderr (snd run) = w_stderr w) /\
  (forall r, fst run = Ok r -> r = 0 \/ r = -1).
Proof.
  intros Hp attempt run.
  destruct (core_quiet_and_classified drv p w) as [Hquiet Hclass].
  unfold quiet_stderr in Hquiet. fold attempt in Hquiet, Hclass.
  subst run. rewrite (main_accepted drv argv p w Hp). fold attempt.
  destruct attempt as [[u|e|] w1]; cbn [fst snd] in *.
  - split; [exact Hquiet|]. split; [intros e H; discriminate H|].
    split; [intros u' _; split; [reflexivity | exact Hquiet]|].
    intros r H. inversion H. auto.
  - split; [exact Hquiet|]. split.
    + intros e0 H. inversion H; subst e0.
      split; [apply Hclass; reflexivity|].
      split; [reflexivity|]. split; [discriminate|].
      split; [simpl; rewrite Hquiet; reflexivity|].
      split; reflexivity.
    + split; [intros u H; discriminate H|].
      intros r H. inversion H. auto.
  - split; [exact Hquiet|]. split; [intros e H; discriminate H|].
    split; [intros u H; discriminate H | intros r H; discriminate H].
Qed.

Lemma main_reports_failure_once_witness :
  w_stderr (snd (main (demo_driver fail_display) ["dp-alpha"; "p"]%string boot))
    = ("Error: No connected connector found" ++ endl)%string /\
  w_stderr (snd (main (demo_driver fail_mmap) ["dp-alpha"; "p"]%string boot))
    = ("Error: Failed to mmap framebuffer: Invalid argument" ++ endl)%string /\
  w_stderr (snd (main (demo_driver fail_bind) ["dp-alpha"; "s"]%string boot))
    = ("Error: Failed to set CRTC: Invalid argument" ++ endl)%string /\
  fst (main (demo_driver fail_bind) ["dp-alpha"; "s"]%string boot) = Ok (-1).
Proof.
  destruct (main_reports_failure_once (demo_driver fail_display)
              ["dp-alpha"; "p"]%string true boot eq_refl) as [_ [H1 _]].
  destruct (main_reports_failure_once (demo_driver fail_mmap)
              ["dp-alpha"; "p"]%string true boot eq_refl) as [_ [H2 _]].
  destruct (main_reports_failure_once (demo_driver fail_bind)
              ["dp-alpha"; "s"]%string false boot eq_refl) as [_ [H3 _]].
  assert (T1 : fst (core (demo_driver fail_display) true boot)
               = Throw NoDisplayError) by (vm_compute; reflexivity).
  assert (T2 : fst (core (demo_driver fail_mmap) true boot)
               = Throw (system_error EINVAL "Failed to mmap framebuffer"))
    by (vm_compute; reflexivity).
  assert (T3 : fst (core (demo_driver fail_bind) false boot)
               = Throw (system_error EINVAL "Failed to set CRTC"))
    by (vm_compute; reflexivity).
  destruct (H1 _ T1) as [_ [_ [_ [E1 _]]]].
  destruct (H2 _ T2) as [_ [_ [_ [E2 _]]]].
  destruct (H3 _ T3) as [_ [R3 [_ [E3 _]]]].
  split; [exact E1|]. split; [exact E2|]. split; [exact E3 | exact R3].
Defined.

(** Each of the ten core failures occurs for some driver. *)
Lemma core_failures_all_occur :
  map (fun f => thrown_message (fst (core (demo_driver f) true boot)))
      [fail_open; fail_resources; fail_display; fail_encoder; fail_crtc;
       fail_alloc; fail_register; fail_map; fail_mmap; fail_bind]
  = map Some core_failures.
Proof. vm_compute. reflexivity. Qed.

(** The run of the demo driver with no failure, end to end. *)
Example end_to_end_run :
  observe (main (demo_driver no_failure) ["dp-alpha"; "s"]%string) =
  (Ok 0,
   [sys_open "/dev/dri/card0" O_RDWR; drm_get_resources 3;
    drm_get_connector 3 40; drm_free_connector demo_unplugged;
    drm_get_connector 3 42; drm_get_encoder 3 39;
    ioctl_create_dumb 3 128 96 32;
    drm_add_fb2 3 128 96 DRM_FORMAT_ARGB8888 1 576;
    ioctl_map_dumb 3 1; sys_mmap 55296 3 1 3 0x100000;
    drm_set_crtc 3 38 41 0 0 42 demo_mode; cin_get;
    sys_munmap 0x7f0000000000 55296; drm_rm_fb 3 41; ioctl_destroy_dumb 3 1;
    drm_free_encoder (demo_encoder no_failure);
    drm_free_connector (demo_connector no_failure);
    drm_free_resources demo_resources; sys_close 3],
   ("If you see a chessboard pattern, straight alpha blending mode is incorrect."
      ++ endl)%string,
   EmptyString).
Proof. vm_compute. reflexivity. Qed.

(** C3.  The teardown of the Output Controller does not cover partial
    discovery.  [initialize] throws from inside the constructor, so the
    destructor, with its three null tests, is not run on the partly
    discovered controller; only the member [_fd] is destroyed.  With no
    display connected the resource list obtained is never freed: after
    the second connector is given back the only call left is the close.
    When the CRTC is not found, the encoder, the selected connector and
    the resource list all stay unfreed. *)
Theorem partial_discovery_leaks :
  let unplugged := main (demo_driver fail_display) ["dp-alpha"; "s"]%string boot in
  let no_crtc := main (demo_driver fail_crtc) ["dp-alpha"; "s"]%string boot in
  (fst unplugged = Ok (-1) /\
   w_stderr (snd unplugged)
   = ("Error: No connected connector found" ++ endl)%string /\
   w_trace (snd unplugged)
   = [sys_open "/dev/dri/card0" O_RDWR; drm_get_resources 3;
      drm_get_connector 3 40; drm_free_connector demo_unplugged;
      drm_get_connector 3 42;
      drm_free_connector (demo_connector fail_display); sys_close 3] /\
   d_get_resources (demo_driver fail_display) 3 = Some demo_resources /\
   ~ In (drm_free_resources demo_resources) (w_trace (snd unplugged))) /\
  (fst no_crtc = Ok (-1) /\
   w_stderr (snd no_crtc) = ("Error: Failed to find CRTC" ++ endl)%string /\
   w_trace (snd no_crtc)
   = [sys_open "/dev/dri/card0" O_RDWR; drm_get_resources 3;
      drm_get_connector 3 40; drm_free_connector demo_unplugged;
      drm_get_connector 3 42; drm_get_encoder 3 39; sys_close 3] /\
   ~ In (drm_free_encoder (demo_encoder fail_crtc)) (w_trace (snd no_crtc)) /\
   ~ In (drm_free_connector (demo_connector fail_crtc))
        (w_trace (snd no_crtc)) /\
   ~ In (drm_free_resources demo_resources) (w_trace (snd no_crtc))).
Proof.
  intros unplugged no_crtc.
  assert (T1 : w_trace (snd unplugged)
    = [sys_open "/dev/dri/card0" O_RDWR; drm_get_resources 3;
       drm_get_connector 3 40; drm_free_connector demo_unplugged;
       drm_get_connector 3 42;
       drm_free_connector (demo_connector fail_display); sys_close 3])
    by (vm_compute; reflexivity).
  assert (T2 : w_trace (snd no_crtc)
    = [sys_open "/dev/dri/card0" O_RDWR; drm_get_resources 3;
       drm_get_connector 3 40; drm_free_connector demo_unplugged;
       drm_get_connector 3 42; drm_get_encoder 3 39; sys_close 3])
    by (vm_compute; reflexivity).
  rewrite T1, T2.
  split; [split; [|split; [|split; [|split]]]
         |split; [|split; [|split; [|split; [|split]]]]];
    try (vm_compute; reflexivity);
    intros H; cbn [In] in H; intuition discriminate.
Qed.

(** ** The command line *)

Lemma string_app_assoc (a b c : string) :
  ((a ++ b) ++ c = a ++ (b ++ c))%string.
Proof. induction a as [|x a IH]; simpl; [reflexivity | rewrite IH; reflexivity]. Qed.

(** C8, as the code has it.  [main] runs the [try] block exactly when
    there is one argument and its first character is [p] (premultiplied)
    or [s] (straight); the rest of the argument is not looked at.  For
    any other argument count, an empty argument, or any other first
    character, it prints the three lines of the usage message to
    standard output, makes no call, writes nothing to standard error and
    returns -1, which is exit status 255. *)
Theorem main_usage (drv : Driver) (argv : list string) (w : world) :
  (parse_args argv = None <->
   (List.length argv <> 2%nat \/
    (first_char (nth 1 argv EmptyString) <> "p"%char /\
     first_char (nth 1 argv EmptyString) <> "s"%char))) /\
  (parse_args argv = None ->
   fst (main drv argv w) = Ok (-1) /\
   w_stdout (snd (main drv argv w)) = (w_stdout w ++ usage_text)%string /\
   w_stderr (snd (main drv argv w)) = w_stderr w /\
   w_trace (snd (main drv argv w)) = w_trace w) /\
  (forall prog rest,
     argv = [prog; String "p" rest] ->
     main drv argv =
     try_catch (core drv true ;; ret 0)
       (fun e => cerr ("Error: " ++ what drv e ++ endl)%string ;; ret (-1))) /\
  (forall prog rest,
     argv = [prog; String "s" rest] ->
     main drv argv =
     try_catch (core drv false ;; ret 0)
       (fun e => cerr ("Error: " ++ what drv e ++ endl)%string ;; ret (-1))) /\
  count_lines usage_text = 3%nat /\
  exit_status (-1) = 255.
Proof.
  split; [|split; [|split; [|split; [|split]]]].
  - unfold parse_args.
    destruct (Z.eqb_spec (Z.of_nat (List.length argv)) 2) as [E|E]; simpl.
    + destruct (Ascii.eqb_spec (first_char (nth 1 argv EmptyString)) "p")
        as [Ep|Ep].
      * split; [discriminate|]. intros [H|[H _]]; [lia | contradiction].
      * destruct (Ascii.eqb_spec (first_char (nth 1 argv EmptyString)) "s")
          as [Es|Es].
        -- split; [discriminate|]. intros [H|[_ H]]; [lia | contradiction].
        -- split; [intros _; right; split; assumption | reflexivity].
    + split; [intros _; left; lia | reflexivity].
  - intros Hnone. unfold main. rewrite Hnone.
    unfold usage, bind, cout, ret. simpl.
    repeat split. unfold usage_text.
    rewrite !string_app_assoc. reflexivity.
  - intros prog rest ->. reflexivity.
  - intros prog rest ->. reflexivity.
  - reflexivity.
  - reflexivity.
Qed.

Lemma main_usage_witness :
  fst (main (demo_driver no_failure) ["dp-alpha"; "x"]%string boot) = Ok (-1) /\
  w_stdout (snd (main (demo_driver no_failure) ["dp-alpha"; "x"]%string boot))
    = usage_text /\
  main (demo_driver no_failure) ["dp-alpha"; "premultiplied"]%string =
  try_catch (core (demo_driver no_failure) true ;; ret 0)
    (fun e => cerr ("Error: " ++ what (demo_driver no_failure) e ++ endl)%string
              ;; ret (-1)).
Proof.
  destruct (main_usage (demo_driver no_failure) ["dp-alpha"; "x"]%string boot)
    as [_ [Hrej _]].
  destruct (main_usage (demo_driver no_failure)
              ["dp-alpha"; "premultiplied"]%string boot)
    as [_ [_ [Hacc _]]].
  destruct (Hrej eq_refl) as [Hret [Hout _]].
  split; [exact Hret|]. split; [exact Hout|].
  exact (Hacc "dp-alpha"%string "remultiplied"%string eq_refl).
Defined.

(** C8 as stated fails twice: an argument that merely starts with [p]
    is accepted although its value is neither [p] nor [s] (the run goes
    on, prints no usage and returns 0), and the usage message has three
    lines, not two. *)
Lemma main_usage_counterexample :
  let argv := ["dp-alpha"; "px"]%string in
  let run := main (demo_driver no_failure) argv boot in
  List.length argv = 2%nat /\
  nth 1 argv EmptyString <> "p"%string /\
  nth 1 argv EmptyString <> "s"%string /\
  fst run = Ok 0 /\
  exit_status 0 = 0 /\
  w_stdout (snd run)
    = ("If you see a chessboard pattern, premultiplied alpha blending mode is incorrect."
       ++ endl)%string /\
  w_stdout (snd run) <> usage_text /\
  count_lines
    (w_stdout (snd (main (demo_driver no_failure) ["dp-alpha"]%string boot)))
    <> 2%nat.
Proof.
  vm_compute. repeat split; try reflexivity; intros H; discriminate H.
Qed.

(** * Further properties *)

(** ** The checkerboard, continued *)

Module PatternMore.
Import DrmBuffer.

(** A word that some store of the list hits ends up with a value that
    does not depend on the memory the replay started from. *)
Lemma replay_written_indep (ws : list (Z * Z)) :
  forall px px' k,
    (exists v, In (k, v) ws) -> replay ws px k = replay ws px' k.
Proof.
  induction ws as [|[i v] ws IH]; intros px px' k [v0 Hin].
  - destruct Hin.
  - change (replay ((i, v) :: ws) px) with (replay ws (store px i v)).
    change (replay ((i, v) :: ws) px') with (replay ws (store px' i v)).
    destruct (Pattern.replay_cases ws (store px i v) k)
      as [[v1 [Hin1 _]]|[Hno Hsame]].
    + apply IH. exists v1. exact Hin1.
    + destruct (Pattern.replay_cases ws (store px' i v) k)
        as [[v1 [Hin1 _]]|[_ Hsame']].
      * exfalso. exact (Hno v1 Hin1).
      * rewrite Hsame, Hsame'. destruct Hin as [Heq|Hin].
        -- inversion Heq; subst. unfold store. rewrite Z.eqb_refl.
           reflexivity.
        -- exfalso. exact (Hno v0 Hin).
Qed.

(** Which words are stored to does not depend on the convention. *)
Lemma fill_writes_same_words self p p' k v :
  In (k, v) (fill_writes self p) -> exists v', In (k, v') (fill_writes self p').
Proof.
  intros Hin. apply Pattern.in_fill_writes in Hin.
  destruct Hin as [x [y [Hx [Hy [Hk _]]]]].
  exists (tile_color p' x y). apply Pattern.in_fill_writes.
  exists x, y. auto.
Qed.

Lemma adjacent_parity (a b : Z) : (a + 1 + b) mod 2 <> (a + b) mod 2.
Proof.
  replace (a + 1 + b) with (a + b + 1) by lia.
  pose proof (Z.mod_pos_bound (a + b) 2 ltac:(lia)).
  rewrite Z.add_mod by lia. intros E.
  destruct (Z.eq_dec ((a + b) mod 2) 0) as [E0|E0].
  - rewrite E0 in E. cbn in E. discriminate.
  - assert (E1 : (a + b) mod 2 = 1) by lia. rewrite E1 in E. cbn in E.
    discriminate.
Qed.

Lemma tile_color_differs p x y x' y' :
  (x' / 64 + y' / 64) mod 2 <> (x / 64 + y / 64) mod 2 ->
  tile_color p x' y' <> tile_color p x y.
Proof.
  intros Hpar. rewrite !Pattern.tile_color_parity.
  pose proof (Z.mod_pos_bound (x / 64 + y / 64) 2 ltac:(lia)).
  pose proof (Z.mod_pos_bound (x' / 64 + y' / 64) 2 ltac:(lia)).
  destruct (Z.eqb_spec ((x' / 64 + y' / 64) mod 2) 1);
    destruct (Z.eqb_spec ((x / 64 + y / 64) mod 2) 1);
    destruct p; try discriminate; lia.
Qed.

(** The fill has defined behaviour exactly when the store for every
    in-bounds coordinate is made into the mapping. *)
Lemma fill_defined_iff self :
  fill_defined self = true <->
  forall x y, 0 <= x < _width self -> 0 <= y < _height self ->
    in_mapping self (pixel_index self x y) = true.
Proof.
  unfold fill_defined. rewrite forallb_forall. split.
  - intros H x y Hx Hy.
    specialize (H y (proj2 (Pattern.in_upto _ _) Hy)).
    rewrite forallb_forall in H.
    exact (H x (proj2 (Pattern.in_upto _ _) Hx)).
  - intros H y Hy. apply forallb_forall. intros x Hx.
    apply H; apply Pattern.in_upto; assumption.
Qed.

(** A mapping that is there and a consistent reply of the kernel keep
    every store of the fill inside the mapping. *)
Lemma fill_defined_consistent self :
  _mapped self <> nullptr -> _mapped self <> MAP_FAILED ->
  0 <= _pitch self ->
  _width self <= _pitch self / 4 ->
  _height self * (_pitch self / 4) <= 2 ^ 32 ->
  _pitch self * _height self <= _size self ->
  fill_defined self = true.
Proof.
  intros Hnull Hfailed Hp Hw Hh Hsize. apply fill_defined_iff.
  intros x y Hx Hy. unfold in_mapping.
  apply Z.eqb_neq in Hnull, Hfailed. rewrite Hnull, Hfailed.
  cbn [negb andb]. apply Z.leb_le.
  rewrite Pattern.pixel_index_plain by assumption.
  pose proof (Z.mul_div_le (_pitch self) 4 ltac:(lia)) as Hq.
  set (q := _pitch self / 4) in *.
  assert (4 * (y * q + x) + 4 <= 4 * q * _height self) by nia.
  assert (4 * q * _height self <= _pitch self * _height self) by nia.
  lia.
Qed.

(** One store outside the mapping is enough to make it undefined. *)
Lemma fill_defined_miss self x y :
  0 <= x < _width self -> 0 <= y < _height self ->
  in_mapping self (pixel_index self x y) = false ->
  fill_defined self = false.
Proof.
  intros Hx Hy Hmiss.
  destruct (fill_defined self) eqn:E; [|reflexivity].
  rewrite (proj1 (fill_defined_iff self) E x y Hx Hy) in Hmiss.
  discriminate Hmiss.
Qed.

End PatternMore.

(** X1.  A fill overwrites whatever an earlier fill painted, of either
    convention: filling with [p2] after filling with [p1] leaves every
    word of memory as filling with [p2] alone does.  In particular the
    fill is idempotent. *)
Theorem fill_chessboard_overwrites (self : DrmBuffer.state) (p1 p2 : bool)
    (w : world) (k : Z) :
  painted self p2 (snd (DrmBuffer.fill_chessboard self p1 w)) k
  = painted self p2 w k.
Proof.
  unfold painted. cbn [snd DrmBuffer.fill_chessboard w_pixels].
  rewrite !(Pattern.fill_pixels_replay self p2).
  destruct (Pattern.replay_cases (DrmBuffer.fill_writes self p2)
              (w_pixels w) k) as [[v [Hin _]]|[Hno Hsame]].
  - apply PatternMore.replay_written_indep. exists v. exact Hin.
  - rewrite Hsame.
    destruct (Pattern.replay_cases (DrmBuffer.fill_writes self p2)
                (DrmBuffer.fill_pixels self p1 (w_pixels w)) k)
      as [[v [Hin _]]|[_ Hsame2]].
    + exfalso. exact (Hno v Hin).
    + rewrite Hsame2, Pattern.fill_pixels_replay.
      destruct (Pattern.replay_cases (DrmBuffer.fill_writes self p1)
                  (w_pixels w) k) as [[v [Hin _]]|[_ Hsame1]].
      * exfalso.
        destruct (PatternMore.fill_writes_same_words self p1 p2 k v Hin)
          as [v' Hin'].
        exact (Hno v' Hin').
      * exact Hsame1.
Qed.

(** X2.  The pattern is a checkerboard of 64x64 tiles whose top-left
    tile is light: two coordinates in the same tile get the same colour,
    the tile to the right and the tile below get the other colour, and
    the tile diagonally across gets the same one again. *)
Theorem checkerboard_structure (p : bool) (x y : Z) :
  0 <= x -> x + 64 < 2 ^ 32 -> 0 <= y -> y + 64 < 2 ^ 32 ->
  DrmBuffer.tile_color p 0 0 = DrmBuffer.white p /\
  (forall x' y', x' / 64 = x / 64 -> y' / 64 = y / 64 ->
     DrmBuffer.tile_color p x' y' = DrmBuffer.tile_color p x y) /\
  DrmBuffer.tile_color p (x + 64) y <> DrmBuffer.tile_color p x y /\
  DrmBuffer.tile_color p x (y + 64) <> DrmBuffer.tile_color p x y /\
  DrmBuffer.tile_color p (x + 64) (y + 64) = DrmBuffer.tile_color p x y.
Proof.
  intros _ _ _ _.
  assert (Hx : (x + 64) / 64 = x / 64 + 1).
  { replace (x + 64) with (x + 1 * 64) by lia. apply Z.div_add. lia. }
  assert (Hy : (y + 64) / 64 = y / 64 + 1).
  { replace (y + 64) with (y + 1 * 64) by lia. apply Z.div_add. lia. }
  split; [reflexivity|]. split; [|split; [|split]].
  - intros x' y' Ex Ey. rewrite !Pattern.tile_color_parity, Ex, Ey.
    reflexivity.
  - apply PatternMore.tile_color_differs. rewrite Hx.
    apply PatternMore.adjacent_parity.
  - apply PatternMore.tile_color_differs. rewrite Hy.
    replace (x / 64 + (y / 64 + 1)) with (x / 64 + 1 + y / 64) by lia.
    apply PatternMore.adjacent_parity.
  - rewrite !Pattern.tile_color_parity, Hx, Hy.
    replace (x / 64 + 1 + (y / 64 + 1)) with (x / 64 + y / 64 + 1 * 2) by lia.
    rewrite Z.mod_add by lia. reflexivity.
Qed.

Lemma checkerboard_structure_witness :
  DrmBuffer.tile_color true 100 5 = DrmBuffer.tile_color true 70 60 /\
  DrmBuffer.tile_color true (70 + 64) 60 <> DrmBuffer.tile_color true 70 60 /\
  DrmBuffer.tile_color true 70 (60 + 64) <> DrmBuffer.tile_color true 70 60.
Proof.
  destruct (checkerboard_structure true 70 60)
    as [_ [Hsame [Hright [Hbelow _]]]];
    try (apply Z.leb_le; reflexivity); try (apply Z.ltb_lt; reflexivity).
  split; [apply Hsame; reflexivity|]. split; assumption.
Defined.

(** X3.  When the kernel's reply is consistent -- the stride covers a
    row ([width <= stride/4]), the mapping covers all rows
    ([stride * height <= size]) and the word index does not wrap -- every
    store of the fill lands inside the mapping, and no word outside the
    mapping is altered. *)
Theorem fill_chessboard_in_mapping (self : DrmBuffer.state) (p : bool)
    (w : world) :
  0 <= DrmBuffer._pitch self ->
  DrmBuffer._width self <= DrmBuffer._pitch self / 4 ->
  DrmBuffer._height self * (DrmBuffer._pitch self / 4) <= 2 ^ 32 ->
  DrmBuffer._pitch self * DrmBuffer._height self <= DrmBuffer._size self ->
  (forall i v, In (i, v) (DrmBuffer.fill_writes self p) ->
     0 <= 4 * i /\ 4 * i + 4 <= DrmBuffer._size self) /\
  (forall k, ~ (0 <= 4 * k /\ 4 * k + 4 <= DrmBuffer._size self) ->
     painted self p w k = w_pixels w k).
Proof.
  intros Hp Hw Hh Hsize.
  assert (Hin : forall i v, In (i, v) (DrmBuffer.fill_writes self p) ->
     0 <= 4 * i /\ 4 * i + 4 <= DrmBuffer._size self).
  { intros i v Hi. apply Pattern.in_fill_writes in Hi.
    destruct Hi as [x [y [Hx [Hy [-> _]]]]].
    rewrite Pattern.pixel_index_plain by assumption.
    pose proof (Z.mul_div_le (DrmBuffer._pitch self) 4 ltac:(lia)) as Hq.
    set (q := DrmBuffer._pitch self / 4) in *.
    assert (0 <= y * q) by nia.
    assert (4 * (y * q + x) + 4 <= 4 * q * DrmBuffer._height self) by nia.
    assert (4 * q * DrmBuffer._height self
            <= DrmBuffer._pitch self * DrmBuffer._height self) by nia.
    lia. }
  split; [exact Hin|].
  intros k Hout. unfold painted. cbn [snd DrmBuffer.fill_chessboard w_pixels].
  rewrite Pattern.fill_pixels_replay.
  destruct (Pattern.replay_cases (DrmBuffer.fill_writes self p)
              (w_pixels w) k) as [[v [Hk _]]|[_ Hsame]].
  - exfalso. apply Hout. exact (Hin k v Hk).
  - exact Hsame.
Qed.

Lemma fill_chessboard_in_mapping_witness :
  (forall i v, In (i, v) (DrmBuffer.fill_writes demo_surface true) ->
     0 <= 4 * i /\ 4 * i + 4 <= DrmBuffer._size demo_surface) /\
  painted demo_surface true boot 13824 = w_pixels boot 13824.
Proof.
  destruct (fill_chessboard_in_mapping demo_surface true boot)
    as [Hin Hout]; try (apply Z.leb_le; reflexivity).
  split; [exact Hin|]. apply Hout. intros [_ H].
  apply Z.leb_le in H. discriminate H.
Defined.

(** ** Pixel Surface, continued *)

Lemma buffer_dtor_run drv self w :
  DrmBuffer.dtor drv self w = (Ok tt, after drv w (surface_release self)).
Proof.
  unfold DrmBuffer.dtor, DrmBuffer.cleanup, surface_release, guarded, when.
  destruct (negb (DrmBuffer._mapped self =? nullptr)
            && negb (DrmBuffer._mapped self =? MAP_FAILED));
    destruct (negb (DrmBuffer._fb_id self =? 0));
    destruct (negb (DrmBuffer._handle self =? 0)); reflexivity.
Qed.

(** The five ways through construction, with the world each leaves. *)
Lemma ctor_cases drv fd width height w :
  let run := DrmBuffer.ctor drv fd width height w in
  let r_alloc := fst (alloc_reply drv fd width height) in
  let r_register := fst (register_reply drv fd width height) in
  let r_map := fst (map_reply drv fd width height) in
  let p_mmap := mmap_reply drv fd width height in
  let c_alloc := call_alloc fd width height in
  let c_register := call_register drv fd width height in
  let c_map := call_map drv fd width height in
  let c_mmap := call_mmap drv fd width height in
  let c_rm_fb := call_rm_fb drv fd width height in
  let c_destroy := call_destroy drv fd width height in
  let thrown t msg :=
    run = (Throw (system_error (w_errno (after drv w t)) msg), after drv w t) in
  (r_alloc < 0 /\ thrown [c_alloc] "Failed to create dumb buffer"%string) \/
  (0 <= r_alloc /\ r_register < 0 /\
   thrown [c_alloc; c_register; c_destroy] "Failed to add framebuffer"%string) \/
  (0 <= r_alloc /\ 0 <= r_register /\ r_map < 0 /\
   thrown [c_alloc; c_register; c_map; c_rm_fb; c_destroy]
     "Failed to map dumb buffer"%string) \/
  (0 <= r_alloc /\ 0 <= r_register /\ 0 <= r_map /\ p_mmap = MAP_FAILED /\
   thrown [c_alloc; c_register; c_map; c_mmap; c_rm_fb; c_destroy]
     "Failed to mmap framebuffer"%string) \/
  (0 <= r_alloc /\ 0 <= r_register /\ 0 <= r_map /\ p_mmap <> MAP_FAILED /\
   run = (Ok (live_surface drv fd width height),
          after drv w [c_alloc; c_register; c_map; c_mmap])).
Proof.
  cbv zeta.
  unfold live_surface, mmap_reply, map_reply, register_reply, call_alloc,
    call_register, call_map, call_mmap, call_rm_fb, call_destroy,
    register_reply, map_reply, alloc_handle, alloc_pitch, alloc_size,
    alloc_reply.
  unfold DrmBuffer.ctor, DrmBuffer.create, bind, ret, throw_errno,
    get_errno, throw, sys, after, log_call.
  cbn [fold_left snd fst DrmBuffer.fresh DrmBuffer.with_alloc
       DrmBuffer.with_fb_id DrmBuffer.with_mapped DrmBuffer._fd
       DrmBuffer._width DrmBuffer._height DrmBuffer._format
       DrmBuffer._fb_id DrmBuffer._handle DrmBuffer._pitch DrmBuffer._size
       DrmBuffer._mapped w_errno w_trace].
  destruct (d_create_dumb drv fd width height 32) as [r1 out]; cbn [fst snd].
  destruct (d_add_fb2 drv fd width height DRM_FORMAT_ARGB8888
              (cd_handle out) (cd_pitch out)) as [r2 fb]; cbn [fst snd].
  destruct (d_map_dumb drv fd (cd_handle out)) as [r3 off]; cbn [fst snd].
  destruct (Z.ltb_spec r1 0); [left; split; [assumption | reflexivity]|].
  right.
  destruct (Z.ltb_spec r2 0);
    [left; split; [assumption | split; [assumption | reflexivity]]|].
  right.
  destruct (Z.ltb_spec r3 0);
    [left; repeat (split; [assumption|]); reflexivity|].
  right.
  match goal with
  | |- context [?p =? MAP_FAILED] => destruct (Z.eqb_spec p MAP_FAILED)
  end.
  - left. repeat (split; [assumption|]). reflexivity.
  - right. repeat (split; [assumption|]). reflexivity.
Qed.

(** X4.  The error code a failed construction reports is [errno] as the
    last call made left it.  For a failed allocation that is the failing
    call itself; for the three later steps the buffer (and framebuffer)
    are released before [errno] is read, so the code reported is the one
    left by the final deallocation call. *)
Theorem create_reports_errno_after_cleanup (drv : Driver)
    (fd width height : Z) (w : world) :
  let run := DrmBuffer.ctor drv fd width height w in
  let r_alloc := fst (alloc_reply drv fd width height) in
  let r_register := fst (register_reply drv fd width height) in
  let r_map := fst (map_reply drv fd width height) in
  let p_mmap := mmap_reply drv fd width height in
  let c_alloc := call_alloc fd width height in
  let c_register := call_register drv fd width height in
  let c_map := call_map drv fd width height in
  let c_mmap := call_mmap drv fd width height in
  let c_rm_fb := call_rm_fb drv fd width height in
  let c_destroy := call_destroy drv fd width height in
  (r_alloc < 0 ->
   fst run = Throw (system_error (d_errno drv c_alloc (w_errno w))
                      "Failed to create dumb buffer")) /\
  (0 <= r_alloc -> r_register < 0 ->
   fst run =
   Throw (system_error
            (d_errno drv c_destroy
               (w_errno (after drv w [c_alloc; c_register])))
            "Failed to add framebuffer")) /\
  (0 <= r_alloc -> 0 <= r_register -> r_map < 0 ->
   fst run =
   Throw (system_error
            (d_errno drv c_destroy
               (w_errno (after drv w [c_alloc; c_register; c_map; c_rm_fb])))
            "Failed to map dumb buffer")) /\
  (0 <= r_alloc -> 0 <= r_register -> 0 <= r_map -> p_mmap = MAP_FAILED ->
   fst run =
   Throw (system_error
            (d_errno drv c_destroy
               (w_errno (after drv w
                           [c_alloc; c_register; c_map; c_mmap; c_rm_fb])))
            "Failed to mmap framebuffer")).
Proof.
  cbv zeta.
  destruct (ctor_cases drv fd width height w)
    as [[A H]|[[A [B H]]|[[A [B [C H]]]|[[A [B [C [D H]]]]|[A [B [C [D H]]]]]]]];
    cbv zeta in H; rewrite H; cbn [fst];
    repeat split; intros; try lia; try contradiction; reflexivity.
Qed.

Lemma create_reports_errno_after_cleanup_witness :
  fst (DrmBuffer.ctor clobbering_driver 3 128 96 boot)
    = Throw (system_error EBADF "Failed to add framebuffer") /\
  w_errno (after clobbering_driver boot
             [ioctl_create_dumb 3 128 96 32;
              drm_add_fb2 3 128 96 DRM_FORMAT_ARGB8888 1 576]) = EINVAL.
Proof.
  destruct (create_reports_errno_after_cleanup clobbering_driver 3 128 96 boot)
    as [_ [Hreg _]].
  split; [|reflexivity].
  rewrite Hreg; [reflexivity | apply Z.leb_le; reflexivity
                | apply Z.ltb_lt; reflexivity].
Defined.

(** X5.  A Pixel Surface only makes its own acquisition and release
    calls, and only on the descriptor it was given: whatever happens
    during construction, and later during destruction of a constructed
    surface, it never closes, opens or queries the device. *)
Theorem surface_keeps_to_lent_fd (drv : Driver) (fd width height : Z)
    (w : world) :
  (exists t,
     logged w (snd (DrmBuffer.ctor drv fd width height w)) t /\
     Forall (surface_call_on fd) t) /\
  (forall self w1,
     DrmBuffer.ctor drv fd width height w = (Ok self, w1) ->
     DrmBuffer._fd self = fd /\
     DrmBuffer._width self = width /\ DrmBuffer._height self = height /\
     forall w2,
       exists t,
         logged w2 (snd (DrmBuffer.dtor drv self w2)) t /\
         Forall (surface_call_on fd) t).
Proof.
  destruct (ctor_cases drv fd width height w)
    as [[A H]|[[A [B H]]|[[A [B [C H]]]|[[A [B [C [D H]]]]|[A [B [C [D H]]]]]]]];
    cbv zeta in H; rewrite H; cbn [fst snd]; (split;
      [ eexists; split; [apply after_trace | repeat constructor]
      | intros self w1 Heq; try discriminate Heq ]).
  inversion Heq; subst self w1. repeat split.
  intros w2. rewrite buffer_dtor_run. cbn [snd].
  eexists. split; [apply after_trace|].
  unfold surface_release, guarded.
  destruct (negb (DrmBuffer._mapped _ =? nullptr)
            && negb (DrmBuffer._mapped _ =? MAP_FAILED));
    destruct (negb (DrmBuffer._fb_id _ =? 0));
    destruct (negb (DrmBuffer._handle _ =? 0));
    repeat constructor.
Qed.

Lemma surface_keeps_to_lent_fd_witness :
  DrmBuffer._fd demo_surface = 3 /\
  exists t,
    logged boot (snd (DrmBuffer.dtor (demo_driver no_failure) demo_surface boot)) t /\
    Forall (surface_call_on 3) t.
Proof.
  destruct (surface_keeps_to_lent_fd (demo_driver no_failure) 3 128 96 boot)
    as [_ Hbuilt].
  destruct (Hbuilt demo_surface _ eq_refl) as [Hfd [_ [_ Hdtor]]].
  split; [exact Hfd | exact (Hdtor boot)].
Defined.

(** ** Output Controller, continued *)

Lemma shl1_some (i bit : Z) :
  0 <= i -> shl1 i = Some bit -> i < 32 /\ bit = 2 ^ i.
Proof.
  intros Hi H. destruct (Z.lt_ge_cases i 32) as [Hlt|Hge].
  - rewrite shl1_in_range in H by lia. inversion H. auto.
  - unfold shl1 in H. destruct (Z.ltb_spec i 32); [lia|].
    rewrite andb_false_r in H. discriminate.
Qed.

Lemma find_crtc_pure (mask : Z) :
  forall ids i w, snd (DrmDevice.find_crtc mask i ids w) = w.
Proof.
  induction ids as [|id ids IH]; intros i w; simpl.
  - reflexivity.
  - destruct (shl1 i); [|reflexivity].
    destruct (negb (Z.land mask z =? 0)); [reflexivity | apply IH].
Qed.

(** A non-zero result of the CRTC loop is the entry at the first index
    whose bit is set. *)
Lemma find_crtc_result (mask : Z) :
  forall ids i w c w',
    0 <= i ->
    DrmDevice.find_crtc mask i ids w = (Ok c, w') ->
    c <> 0 ->
    exists n,
      nth_error ids n = Some c /\ i + Z.of_nat n < 32 /\
      Z.testbit mask (i + Z.of_nat n) = true /\
      forall j, (j < n)%nat -> Z.testbit mask (i + Z.of_nat j) = false.
Proof.
  induction ids as [|id ids IH]; intros i w c w' Hi Hrun Hc; simpl in Hrun.
  - inversion Hrun. congruence.
  - destruct (shl1 i) as [bit|] eqn:Hs; [|discriminate].
    destruct (shl1_some i bit Hi Hs) as [Hlt ->].
    rewrite land_pow2_eqb in Hrun by lia.
    destruct (Z.testbit mask i) eqn:Hb; simpl in Hrun.
    + inversion Hrun; subst. exists 0%nat.
      replace (i + Z.of_nat 0) with i by lia.
      split; [reflexivity|]. split; [lia|]. split; [exact Hb|].
      intros j Hj. lia.
    + destruct (IH (i + 1) w c w' ltac:(lia) Hrun Hc)
        as [n [Hn [Hlt' [Hset Hclear]]]].
      exists (S n).
      replace (i + Z.of_nat (S n)) with (i + 1 + Z.of_nat n) by lia.
      split; [exact Hn|]. split; [exact Hlt'|]. split; [exact Hset|].
      intros [|j] Hj.
      * replace (i + Z.of_nat 0) with i by lia. exact Hb.
      * replace (i + Z.of_nat (S j)) with (i + 1 + Z.of_nat j) by lia.
        apply Hclear. lia.
Qed.

(** Indices whose bits are clear are passed over. *)
Lemma find_crtc_skip (mask : Z) (n : nat) :
  forall ids i w,
    0 <= i -> i + Z.of_nat n <= 32 -> (n <= List.length ids)%nat ->
    (forall j, (j < n)%nat -> Z.testbit mask (i + Z.of_nat j) = false) ->
    DrmDevice.find_crtc mask i ids w
    = DrmDevice.find_crtc mask (i + Z.of_nat n) (skipn n ids) w.
Proof.
  induction n as [|n IH]; intros ids i w Hi Hle Hlen Hclear.
  - replace (i + Z.of_nat 0) with i by lia. reflexivity.
  - destruct ids as [|id ids]; [simpl in Hlen; lia|].
    cbn [skipn DrmDevice.find_crtc].
    rewrite shl1_in_range by lia. rewrite land_pow2_eqb by lia.
    specialize (Hclear 0%nat ltac:(lia)) as H0.
    replace (i + Z.of_nat 0) with i in H0 by lia. rewrite H0.
    cbn [negb]. cbv iota.
    replace (i + Z.of_nat (S n)) with (i + 1 + Z.of_nat n) by lia.
    apply IH; try lia.
    + simpl in Hlen. lia.
    + intros j Hj.
      replace (i + 1 + Z.of_nat j) with (i + Z.of_nat (S j)) by lia.
      apply Hclear. lia.
Qed.

(** The connector the scan returns is the first connected one. *)
Lemma scan_result_shape drv fd ids i w c w' :
  DrmDevice.find_connector drv fd i ids w = (Ok (Some c), w') ->
  exists pre rest,
    connector_replies drv fd i ids = map Some pre ++ Some c :: rest /\
    Forall unconnected pre /\ is_connected (connection c) = true /\
    w' = after drv w (discard_calls fd ids pre
                      ++ [drm_get_connector fd (nth (List.length pre) ids 0)]).
Proof.
  intros Hrun.
  destruct (replies_shape (connector_replies drv fd i ids))
    as [[all [H Hall]]|[[pre [c' [rest [H [Hpre Hc]]]]]|[pre [rest [H Hpre]]]]].
  - rewrite (scan_none drv fd all ids i w H Hall) in Hrun. discriminate.
  - rewrite (scan_selected drv fd pre ids i w c' rest H Hpre Hc) in Hrun.
    inversion Hrun; subst. exists pre, rest. auto.
  - rewrite (scan_null drv fd pre ids i w rest H Hpre) in Hrun. discriminate.
Qed.

Lemma ctor_open_failed drv path w :
  d_open drv path O_RDWR = -1 ->
  DrmDevice.ctor drv path w =
  (Throw (system_error (w_errno (after drv w [sys_open path O_RDWR]))
            "Failed to open file"),
   after drv w [sys_open path O_RDWR]).
Proof.
  intros Hfd. unfold DrmDevice.ctor, autofd.ctor, bind, sys, throw_errno,
    get_errno, throw. rewrite Hfd. reflexivity.
Qed.

(** The CRTC loop neither reads nor changes the world. *)
Lemma find_crtc_any_world (mask : Z) :
  forall ids i w w0,
    DrmDevice.find_crtc mask i ids w
    = (fst (DrmDevice.find_crtc mask i ids w0), w).
Proof.
  induction ids as [|id ids IH]; intros i w w0; simpl.
  - reflexivity.
  - destruct (shl1 i); [|reflexivity].
    destruct (negb (Z.land mask z =? 0)); [reflexivity | apply IH].
Qed.

Lemma resolve_crtc_any_world enc res w w0 :
  DrmDevice.resolve_crtc enc res w
  = (fst (DrmDevice.resolve_crtc enc res w0), w).
Proof.
  unfold DrmDevice.resolve_crtc.
  destruct (crtc_id enc =? 0); [apply find_crtc_any_world | reflexivity].
Qed.

(** Everything a successful [initialize] establishes. *)
Lemma initialize_ok drv self w dev w' :
  DrmDevice.initialize drv self w = (Ok dev, w') ->
  let fd := DrmDevice._fd self in
  exists res conn enc more pre rest,
    d_get_resources drv fd = Some res /\
    connector_replies drv fd 0 (connectors res)
      = map Some pre ++ Some conn :: rest /\
    Forall unconnected pre /\
    is_connected (connection conn) = true /\
    modes conn = DrmDevice._mode dev :: more /\
    d_get_encoder drv fd (encoder_id conn) = Some enc /\
    (forall w0, DrmDevice.resolve_crtc enc res w0
                = (Ok (DrmDevice._crtc_id dev), w0)) /\
    DrmDevice._crtc_id dev <> 0 /\
    dev = {| DrmDevice._fd := fd; DrmDevice._connector := Some conn;
             DrmDevice._encoder := Some enc;
             DrmDevice._resources := Some res;
             DrmDevice._mode := DrmDevice._mode dev;
             DrmDevice._crtc_id := DrmDevice._crtc_id dev |} /\
    w' = after drv w
           ([drm_get_resources fd]
            ++ discard_calls fd (connectors res) pre
            ++ [drm_get_connector fd (nth (List.length pre) (connectors res) 0);
                drm_get_encoder fd (encoder_id conn)]).
Proof.
  intros Hrun fd.
  destruct (d_get_resources drv fd) as [res|] eqn:Hres.
  2:{ unfold DrmDevice.initialize, bind, sys in Hrun. fold fd in Hrun.
      rewrite Hres in Hrun. discriminate. }
  rewrite (initialize_scanned drv self res w Hres) in Hrun.
  unfold bind at 1 in Hrun. fold fd in Hrun.
  destruct (DrmDevice.find_connector drv fd 0 (connectors res) _)
    as [[[conn|]|e|] w1] eqn:Hscan; try discriminate.
  apply scan_result_shape in Hscan.
  destruct Hscan as [pre [rest [Hrep [Hpre [Hc Hw1]]]]].
  unfold bind at 1, DrmDevice.preferred_mode in Hrun.
  destruct (modes conn) as [|m more] eqn:Hmodes; [discriminate|].
  unfold ret at 1 in Hrun.
  unfold DrmDevice.find_encoder_and_crtc in Hrun.
  unfold bind at 1 in Hrun. unfold sys at 1 in Hrun. fold fd in Hrun.
  destruct (d_get_encoder drv fd (encoder_id conn)) as [enc|] eqn:Henc;
    [|discriminate].
  unfold bind in Hrun.
  rewrite (resolve_crtc_any_world enc res _ w) in Hrun.
  destruct (fst (DrmDevice.resolve_crtc enc res w)) as [crtc|e|] eqn:Hcrtc;
    try discriminate.
  destruct (Z.eqb_spec crtc 0) as [Hz|Hnz]; [discriminate|].
  unfold ret in Hrun. inversion Hrun as [[Hdev Hw']]. clear Hrun.
  subst dev. subst w'.
  exists res, conn, enc, more, pre, rest.
  cbn [DrmDevice._mode DrmDevice._crtc_id].
  split; [first [exact Hres | reflexivity]|].
  split; [exact Hrep|]. split; [exact Hpre|]. split; [exact Hc|].
  split; [first [exact Hmodes | reflexivity]|].
  split; [first [exact Henc | reflexivity]|].
  split; [intros w0; rewrite (resolve_crtc_any_world enc res w0 w), Hcrtc;
          reflexivity|].
  split; [exact Hnz|]. split; [reflexivity|].
  subst w1. rewrite !after_app. reflexivity.
Qed.

Lemma find_crtc_no_throw (mask : Z) :
  forall ids i w e, fst (DrmDevice.find_crtc mask i ids w) <> Throw e.
Proof.
  induction ids as [|id ids IH]; intros i w e; simpl.
  - discriminate.
  - destruct (shl1 i); [|discriminate].
    destruct (negb (Z.land mask z =? 0)); [discriminate | apply IH].
Qed.

Lemma resolve_crtc_no_throw enc res w e :
  fst (DrmDevice.resolve_crtc enc res w) <> Throw e.
Proof.
  unfold DrmDevice.resolve_crtc.
  destruct (crtc_id enc =? 0); [apply find_crtc_no_throw | discriminate].
Qed.

Lemma keeps_discard fd ids cs : Forall keeps_descriptors (discard_calls fd ids cs).
Proof.
  unfold discard_calls. induction (combine ids cs) as [|ic l IH]; simpl.
  - constructor.
  - repeat constructor. exact IH.
Qed.

Lemma replies_prefix_length drv fd i ids pre (o : option drmModeConnector) rest :
  connector_replies drv fd i ids = map Some pre ++ o :: rest ->
  (List.length pre < List.length ids)%nat.
Proof.
  intros H. pose proof (replies_length drv fd i ids) as Hlen.
  rewrite H, length_app, length_map in Hlen. simpl in Hlen. lia.
Qed.

(** What a throwing [initialize] has done by then. *)
Lemma initialize_throw drv self w e w' :
  DrmDevice.initialize drv self w = (Throw e, w') ->
  let fd := DrmDevice._fd self in
  exists mid,
    w' = after drv w (drm_get_resources fd :: mid) /\
    Forall keeps_descriptors mid /\
    Forall unconnected (freed_connectors mid) /\
    In e [runtime_error "Failed to get DRM resources"; NoDisplayError;
          runtime_error "Failed to get encoder"; NoCrtcError].
Proof.
  intros Hrun fd.
  destruct (d_get_resources drv fd) as [res|] eqn:Hres.
  2:{ unfold DrmDevice.initialize, bind, sys, throw in Hrun. fold fd in Hrun.
      rewrite Hres in Hrun. inversion Hrun; subst.
      exists []. repeat split; try constructor. reflexivity. }
  rewrite (initialize_scanned drv self res w Hres) in Hrun.
  unfold bind at 1 in Hrun. fold fd in Hrun.
  destruct (replies_shape (connector_replies drv fd 0 (connectors res)))
    as [[all [H Hall]]|[[pre [c [rest [H [Hpre Hc]]]]]|[pre [rest [H Hpre]]]]].
  - rewrite (scan_none drv fd all _ _ _ H Hall) in Hrun.
    unfold throw in Hrun. inversion Hrun; subst.
    exists (discard_calls fd (connectors res) all).
    split; [|split; [apply keeps_discard|split]].
    + change (drm_get_resources fd :: discard_calls fd (connectors res) all)
        with ([drm_get_resources fd] ++ discard_calls fd (connectors res) all).
      rewrite after_app. reflexivity.
    + rewrite freed_connectors_discard; [exact Hall|].
      pose proof (replies_length drv fd 0%nat (connectors res)) as Hlen.
      rewrite H, length_map in Hlen. lia.
    + simpl. tauto.
  - rewrite (scan_selected drv fd pre _ _ _ c rest H Hpre Hc) in Hrun.
    unfold bind at 1, DrmDevice.preferred_mode in Hrun.
    destruct (modes c) as [|m more]; [discriminate|].
    unfold ret at 1 in Hrun. unfold DrmDevice.find_encoder_and_crtc in Hrun.
    unfold bind at 1 in Hrun. unfold sys at 1 in Hrun. fold fd in Hrun.
    assert (Hmid :
      let mid := discard_calls fd (connectors res) pre
                 ++ [drm_get_connector fd
                       (nth (List.length pre) (connectors res) 0);
                     drm_get_encoder fd (encoder_id c)] in
      Forall keeps_descriptors mid /\
      Forall unconnected (freed_connectors mid)).
    { cbv zeta. split.
      - apply Forall_app. split; [apply keeps_discard | repeat constructor].
      - rewrite freed_connectors_app. simpl. rewrite app_nil_r.
        rewrite freed_connectors_discard; [exact Hpre|].
        apply Nat.lt_le_incl.
        exact (replies_prefix_length drv fd 0%nat _ pre _ rest H). }
    cbv zeta in Hmid. destruct Hmid as [Hkeep Hfreed].
    assert (Hworld : forall w2,
      w2 = snd (sys drv (drm_get_encoder fd (encoder_id c))
                  (after drv (after drv w [drm_get_resources fd])
                     (discard_calls fd (connectors res) pre
                      ++ [drm_get_connector fd
                            (nth (List.length pre) (connectors res) 0)]))) ->
      w2 = after drv w
             (drm_get_resources fd
              :: discard_calls fd (connectors res) pre
                 ++ [drm_get_connector fd
                       (nth (List.length pre) (connectors res) 0);
                     drm_get_encoder fd (encoder_id c)])).
    { intros w2 ->.
      change (drm_get_resources fd :: ?t) with ([drm_get_resources fd] ++ t).
      rewrite !after_app. reflexivity. }
    destruct (d_get_encoder drv fd (encoder_id c)) as [enc|].
    + unfold bind in Hrun.
      rewrite (resolve_crtc_any_world enc res _ w) in Hrun.
      pose proof (resolve_crtc_no_throw enc res w) as Hnt.
      destruct (fst (DrmDevice.resolve_crtc enc res w)) as [crtc|e0|];
        [|exfalso; exact (Hnt e0 eq_refl)|discriminate].
      destruct (crtc =? 0); [|discriminate].
      unfold throw in Hrun. inversion Hrun; subst.
      eexists. split; [apply Hworld; reflexivity|].
      split; [exact Hkeep|]. split; [exact Hfreed|]. simpl. tauto.
    + unfold throw in Hrun. inversion Hrun; subst.
      eexists. split; [apply Hworld; reflexivity|].
      split; [exact Hkeep|]. split; [exact Hfreed|]. simpl. tauto.
  - rewrite (scan_null drv fd pre _ _ _ rest H Hpre) in Hrun. discriminate.
Qed.

(** X6.  A controller whose construction succeeded holds the opened
    descriptor, the resource list, the first connected connector (every
    connector listed before it was queried and found not connected),
    that connector's first mode, its encoder, and a non-zero CRTC id
    that is either the encoder's own or the entry at the first index
    whose bit is set in the encoder's mask.  On such a controller
    [set_crtc] never dereferences a null pointer, and destruction frees
    all three descriptors before closing the descriptor. *)
Theorem constructed_controller (drv : Driver) (path : string) (w : world)
    (dev : DrmDevice.state) (w' : world) :
  DrmDevice.ctor drv path w = (Ok dev, w') ->
  let fd := d_open drv path O_RDWR in
  fd <> -1 /\ DrmDevice._fd dev = fd /\
  exists res conn enc more pre rest,
    d_get_resources drv fd = Some res /\
    DrmDevice._resources dev = Some res /\
    connector_replies drv fd 0 (connectors res)
      = map Some pre ++ Some conn :: rest /\
    Forall unconnected pre /\
    is_connected (connection conn) = true /\
    DrmDevice._connector dev = Some conn /\
    modes conn = DrmDevice._mode dev :: more /\
    d_get_encoder drv fd (encoder_id conn) = Some enc /\
    DrmDevice._encoder dev = Some enc /\
    DrmDevice._crtc_id dev <> 0 /\
    (crtc_id enc <> 0 -> DrmDevice._crtc_id dev = crtc_id enc) /\
    (crtc_id enc = 0 ->
     exists n, nth_error (crtcs res) n = Some (DrmDevice._crtc_id dev) /\
               (n < 32)%nat /\ first_eligible (possible_crtcs enc) n) /\
    (forall fb w0, fst (DrmDevice.set_crtc drv dev fb w0) <> Undefined) /\
    (forall w0,
       DrmDevice.dtor drv dev w0 =
       (Ok tt, after drv w0 [drm_free_encoder enc; drm_free_connector conn;
                             drm_free_resources res; sys_close fd])).
Proof.
  intros Hctor fd.
  assert (Hfd : fd <> -1).
  { intros E. rewrite (ctor_open_failed drv path w E) in Hctor.
    discriminate. }
  rewrite (ctor_opened drv path w Hfd) in Hctor. fold fd in Hctor.
  unfold on_throw in Hctor.
  destruct (DrmDevice.initialize drv (DrmDevice.fresh fd) _)
    as [[d|e|] w1] eqn:Hinit.
  2:{ destruct (autofd.dtor drv fd w1) as [[u|e0|] w2]; discriminate. }
  2:{ discriminate. }
  inversion Hctor; subst d w1. clear Hctor.
  apply initialize_ok in Hinit. cbn [DrmDevice.fresh DrmDevice._fd] in Hinit.
  destruct Hinit as [res [conn [enc [more [pre [rest
    [Hres [Hrep [Hpre [Hc [Hmodes [Henc [Hcrtc [Hnz [Hdev _]]]]]]]]]]]]]]].
  split; [exact Hfd|].
  split; [rewrite Hdev; reflexivity|].
  exists res, conn, enc, more, pre, rest.
  split; [exact Hres|]. split; [rewrite Hdev; reflexivity|].
  split; [exact Hrep|]. split; [exact Hpre|]. split; [exact Hc|].
  split; [rewrite Hdev; reflexivity|]. split; [exact Hmodes|].
  split; [exact Henc|]. split; [rewrite Hdev; reflexivity|].
  split; [exact Hnz|].
  split; [|split; [|split]].
  - intros Hown. specialize (Hcrtc w). unfold DrmDevice.resolve_crtc in Hcrtc.
    apply Z.eqb_neq in Hown. rewrite Hown in Hcrtc.
    inversion Hcrtc. reflexivity.
  - intros Hzero. specialize (Hcrtc w). unfold DrmDevice.resolve_crtc in Hcrtc.
    apply Z.eqb_eq in Hzero. rewrite Hzero in Hcrtc.
    destruct (find_crtc_result _ _ 0 _ _ _ ltac:(lia) Hcrtc Hnz)
      as [n [Hn [Hlt [Hset Hclear]]]].
    exists n. split; [exact Hn|]. split; [lia|].
    split; [exact Hset | exact Hclear].
  - intros fb w0. unfold DrmDevice.set_crtc. rewrite Hdev.
    cbn [DrmDevice._connector]. unfold bind, sys.
    match goal with |- context [if ?b then _ else _] => destruct b end;
      discriminate.
  - intros w0. rewrite device_dtor_run. rewrite Hdev. reflexivity.
Qed.

Lemma constructed_controller_witness :
  exists dev w',
    DrmDevice.ctor (demo_driver no_failure) "/dev/dri/card0" boot = (Ok dev, w') /\
    DrmDevice._fd dev = 3 /\ DrmDevice._crtc_id dev <> 0 /\
    forall fb w0,
      fst (DrmDevice.set_crtc (demo_driver no_failure) dev fb w0) <> Undefined.
Proof.
  destruct (DrmDevice.ctor (demo_driver no_failure) "/dev/dri/card0" boot)
    as [r w'] eqn:Hrun.
  assert (Hr : exists dev, r = Ok dev).
  { assert (E : r = fst (DrmDevice.ctor (demo_driver no_failure)
                           "/dev/dri/card0" boot)) by (rewrite Hrun; reflexivity).
    rewrite E. eexists. reflexivity. }
  destruct Hr as [dev ->].
  exists dev, w'. split; [reflexivity|].
  destruct (constructed_controller _ _ _ _ _ Hrun)
    as [_ [Hfd [res [conn [enc [more [pre [rest H]]]]]]]].
  split; [exact Hfd|]. tauto.
Defined.

(** X7.  When construction of the controller fails, nothing that was
    obtained during discovery is given back except the connectors that
    were examined and found not connected.  If the open failed, no
    other call is made and the descriptor is not closed.  Otherwise the
    calls are: open, the resource query, further discovery calls, and
    the closing of the descriptor; among them there is no release of
    the resource list or of the encoder, and every connector freed is
    an unconnected one, so the selected connector is not freed. *)
Theorem failed_construction_keeps_descriptors (drv : Driver) (path : string)
    (w : world) (e : exn) (w' : world) :
  DrmDevice.ctor drv path w = (Throw e, w') ->
  let fd := d_open drv path O_RDWR in
  (fd = -1 ->
   w' = after drv w [sys_open path O_RDWR] /\
   e = system_error (w_errno w') "Failed to open file") /\
  (fd <> -1 ->
   exists mid,
     w' = after drv w (sys_open path O_RDWR :: drm_get_resources fd
                       :: mid ++ [sys_close fd]) /\
     Forall keeps_descriptors mid /\
     Forall unconnected (freed_connectors mid) /\
     In e [runtime_error "Failed to get DRM resources"; NoDisplayError;
           runtime_error "Failed to get encoder"; NoCrtcError]).
Proof.
  intros Hctor fd. split.
  - intros E. rewrite (ctor_open_failed drv path w E) in Hctor.
    inversion Hctor; subst. split; reflexivity.
  - intros Hfd. rewrite (ctor_opened drv path w Hfd) in Hctor.
    fold fd in Hctor. unfold on_throw in Hctor.
    destruct (DrmDevice.initialize drv (DrmDevice.fresh fd) _)
      as [[d|e0|] w1] eqn:Hinit; try discriminate.
    apply initialize_throw in Hinit.
    cbn [DrmDevice.fresh DrmDevice._fd] in Hinit.
    destruct Hinit as [mid [Hw1 [Hkeep [Hfreed He]]]].
    unfold autofd.dtor, sys in Hctor. inversion Hctor; subst e0 w'.
    exists mid. split; [|auto].
    rewrite Hw1.
    change (sys_open path O_RDWR :: drm_get_resources fd :: mid ++ [sys_close fd])
      with ([sys_open path O_RDWR]
            ++ (drm_get_resources fd :: mid) ++ [sys_close fd]).
    rewrite !after_app. reflexivity.
Qed.

Lemma failed_construction_keeps_descriptors_witness :
  exists mid,
    snd (DrmDevice.ctor (demo_driver fail_crtc) "/dev/dri/card0" boot)
    = after (demo_driver fail_crtc) boot
        (sys_open "/dev/dri/card0" O_RDWR :: drm_get_resources 3
         :: mid ++ [sys_close 3]) /\
    Forall keeps_descriptors mid /\
    Forall unconnected (freed_connectors mid).
Proof.
  destruct (DrmDevice.ctor (demo_driver fail_crtc) "/dev/dri/card0" boot)
    as [r w'] eqn:Hrun.
  assert (Hr : r = Throw NoCrtcError).
  { assert (E : r = fst (DrmDevice.ctor (demo_driver fail_crtc)
                           "/dev/dri/card0" boot)) by (rewrite Hrun; reflexivity).
    rewrite E. reflexivity. }
  subst r.
  destruct (failed_construction_keeps_descriptors _ _ _ _ _ Hrun) as [_ H].
  destruct H as [mid [Hw [Hkeep [Hfreed _]]]]; [discriminate|].
  exists mid. cbn [snd]. auto.
Defined.

(** X8.  The CRTC loop tests index [i] with [1 << i] on a 32-bit [int].
    When the encoder designates no CRTC, more than 32 CRTCs are listed
    and none of the first 32 bits of the mask is set, the loop reaches
    index 32 and the shift is undefined. *)
Theorem crtc_scan_beyond_mask (enc : drmModeEncoder) (res : drmModeRes)
    (w : world) :
  crtc_id enc = 0 ->
  (32 < List.length (crtcs res))%nat ->
  (forall j, (j < 32)%nat ->
     Z.testbit (possible_crtcs enc) (Z.of_nat j) = false) ->
  DrmDevice.resolve_crtc enc res w = (Undefined, w).
Proof.
  intros Hz Hlen Hclear. unfold DrmDevice.resolve_crtc.
  apply Z.eqb_eq in Hz. rewrite Hz.
  rewrite (find_crtc_skip (possible_crtcs enc) 32 (crtcs res) 0 w);
    try lia; [|exact Hclear].
  destruct (skipn 32 (crtcs res)) as [|id ids] eqn:Hskip.
  - pose proof (length_skipn 32 (crtcs res)) as H. rewrite Hskip in H.
    simpl in H. lia.
  - reflexivity.
Qed.

Lemma crtc_scan_beyond_mask_witness :
  DrmDevice.resolve_crtc (demo_encoder fail_crtc) crowded_resources boot
  = (Undefined, boot).
Proof.
  apply crtc_scan_beyond_mask.
  - reflexivity.
  - apply Nat.ltb_lt. reflexivity.
  - intros j _. apply Z.testbit_0_l.
Defined.

(** ** The whole run *)

Lemma core_constructed drv p w dev w1 :
  DrmDevice.ctor drv "/dev/dri/card0" w = (Ok dev, w1) ->
  core drv p w
  = finally (surface_scope drv dev p) (DrmDevice.dtor drv dev) w1.
Proof.
  intros Hctor. unfold core. unfold bind at 1. rewrite Hctor. reflexivity.
Qed.

Lemma scope_surface_failed drv dev p w1 e w2 :
  DrmBuffer.ctor drv (DrmDevice._fd dev) (hdisplay (DrmDevice._mode dev))
    (vdisplay (DrmDevice._mode dev)) w1 = (Throw e, w2) ->
  surface_scope drv dev p w1 = (Throw e, w2).
Proof.
  intros H. unfold surface_scope, DrmDevice.create_buffer. unfold bind at 1.
  rewrite H. reflexivity.
Qed.

(** The scope of a constructed buffer: the fill, undefined when a
    store misses the mapping; then the mode-set, and either the throw
    or the line printed and the wait; and the destructor on the way
    out. *)
Lemma scope_after_surface drv dev conn p w1 surf w2 :
  DrmDevice._connector dev = Some conn ->
  DrmBuffer.ctor drv (DrmDevice._fd dev) (hdisplay (DrmDevice._mode dev))
    (vdisplay (DrmDevice._mode dev)) w1 = (Ok surf, w2) ->
  surface_scope drv dev p w1 =
  let w3 := after drv (painted_world surf p w2)
              [call_bind dev conn (DrmBuffer._fb_id surf)] in
  if DrmBuffer.fill_defined surf then
    if bind_reply drv dev conn (DrmBuffer._fb_id surf) <? 0
    then (Throw (system_error (w_errno w3) "Failed to set CRTC"),
          after drv w3 (surface_release surf))
    else (Ok tt,
          after drv (printed (instruction p) w3)
            (cin_get :: surface_release surf))
  else (Undefined, painted_world surf p w2).
Proof.
  intros Hconn H. unfold surface_scope, DrmDevice.create_buffer.
  unfold bind at 1. rewrite H.
  unfold finally, bind at 1. unfold painted_world.
  unfold DrmBuffer.fill_chessboard at 1 3 4 5.
  destruct (DrmBuffer.fill_defined surf); [|reflexivity].
  unfold bind at 1. unfold DrmDevice.set_crtc. rewrite Hconn.
  unfold bind at 1. unfold sys at 1. unfold DrmBuffer.fb_id.
  fold (bind_reply drv dev conn (DrmBuffer._fb_id surf)).
  cbv zeta.
  destruct (bind_reply drv dev conn (DrmBuffer._fb_id surf) <? 0).
  - unfold throw_errno, bind, get_errno, throw.
    rewrite buffer_dtor_run. reflexivity.
  - unfold ret at 1. unfold bind at 1. unfold cout at 1.
    unfold sys at 1. rewrite buffer_dtor_run. reflexivity.
Qed.

Lemma after_keeps drv t w :
  w_stdout (after drv w t) = w_stdout w /\
  w_stderr (after drv w t) = w_stderr w /\
  w_pixels (after drv w t) = w_pixels w.
Proof.
  revert w. induction t as [|c t IH]; intros w.
  - simpl. auto.
  - change (after drv w (c :: t)) with (after drv (log_call drv w c) t).
    destruct (IH (log_call drv w c)) as [A [B C]].
    rewrite A, B, C. auto.
Qed.

Lemma lifo_seq drv t :
  forall held held' u,
    lifo drv t held = Some held' ->
    lifo drv (t ++ u) held = lifo drv u held'.
Proof.
  induction t as [|c t IH]; intros held held' u H; simpl in *.
  - inversion H. reflexivity.
  - destruct (releases c) as [r|].
    + destruct held as [|top held0]; [discriminate|].
      destruct (resource_eqb r top); [|discriminate].
      apply IH. exact H.
    + destruct (acquires drv c); apply IH; exact H.
Qed.

Lemma lifo_off drv t :
  forall held, Forall (off_surface drv) t -> lifo drv t held = Some held.
Proof.
  induction t as [|c t IH]; intros held Hoff; simpl.
  - reflexivity.
  - inversion Hoff as [|? ? [Hr Ha] Ht]; subst. rewrite Hr, Ha.
    apply IH. exact Ht.
Qed.

Lemma count_cin_get_app t u :
  count_cin_get (t ++ u) = (count_cin_get t + count_cin_get u)%nat.
Proof. unfold count_cin_get. rewrite filter_app, length_app. reflexivity. Qed.

Lemma count_cin_get_bystanders drv t :
  Forall (bystander drv) t -> count_cin_get t = 0%nat.
Proof.
  unfold count_cin_get. induction 1 as [|c t [_ Hc] _ IH]; simpl.
  - reflexivity.
  - rewrite Hc. exact IH.
Qed.

Lemma bystanders_off drv t :
  Forall (bystander drv) t -> Forall (off_surface drv) t.
Proof. apply Forall_impl. intros c [H _]. exact H. Qed.

Lemma device_release_bystanders drv dev :
  Forall (bystander drv) (device_release dev).
Proof.
  unfold device_release, opt_call.
  destruct (DrmDevice._encoder dev), (DrmDevice._connector dev),
    (DrmDevice._resources dev); repeat constructor.
Qed.

Lemma passes_by_refl drv w : passes_by drv w w.
Proof. split; [apply logs_refl | reflexivity]. Qed.

Lemma passes_by_trans drv a b c :
  passes_by drv a b -> passes_by drv b c -> passes_by drv a c.
Proof.
  intros [L1 S1] [L2 S2]. split; [eapply logs_trans; eauto | congruence].
Qed.

Lemma passes_by_sys drv c w :
  bystander drv c -> passes_by drv w (snd (sys drv c w)).
Proof. intros Hc. split; [apply logs_sys; exact Hc | reflexivity]. Qed.

(** Discovery only makes bystander calls and prints nothing. *)
Lemma initialize_passes_by drv self :
  respects (passes_by drv) (fun _ => True) (DrmDevice.initialize drv self).
Proof.
  apply (respects_initialize (passes_by drv) (fun _ => True) (bystander drv)
           drv (passes_by_refl drv) (passes_by_trans drv)
           (fun c w H => passes_by_sys drv c w H) (fun _ _ => I));
    intros; repeat constructor.
Qed.

(** Evaluate [lifo] on a log of surface calls down to the driver's
    replies. *)
Ltac lifo_eval :=
  unfold mmap_reply, map_reply, register_reply, call_alloc,
    call_register, call_map, call_mmap, call_rm_fb, call_destroy,
    call_munmap, call_bind, mmap_reply, register_reply, map_reply,
    alloc_handle, alloc_pitch, alloc_size, alloc_reply in *;
  cbn [lifo releases acquires app];
  repeat (match goal with
          | |- context [d_create_dumb ?d ?a ?b ?c ?e] =>
              destruct (d_create_dumb d a b c e) as [? ?]
          | |- context [d_add_fb2 ?d ?a ?b ?c ?e ?f ?g] =>
              destruct (d_add_fb2 d a b c e f g) as [? ?]
          | |- context [d_map_dumb ?d ?a ?b] =>
              destruct (d_map_dumb d a b) as [? ?]
          | |- context [?r <? 0] => destruct (Z.ltb_spec r 0); try lia
          | |- context [?p =? MAP_FAILED] =>
              destruct (Z.eqb_spec p MAP_FAILED); try contradiction
          | |- context [resource_eqb ?r ?r] => rewrite (resource_eqb_refl r)
          end; cbn [fst snd lifo releases acquires] in *);
  try reflexivity.

Section Balance.
Variables (drv : Driver) (fd width height : Z).

(** With non-zero ids and a non-null mapping, all three guards of the
    destructor pass. *)
Lemma surface_release_live :
  hands_out_nonzero drv ->
  mmap_reply drv fd width height <> MAP_FAILED ->
  surface_release (live_surface drv fd width height)
  = [call_munmap drv fd width height; call_rm_fb drv fd width height;
     call_destroy drv fd width height].
Proof.
  intros [Hh [Hf Hm]] Hmap.
  unfold surface_release, live_surface, guarded.
  cbn [DrmBuffer._mapped DrmBuffer._fb_id DrmBuffer._handle DrmBuffer._fd
       DrmBuffer._size].
  assert (E1 : (mmap_reply drv fd width height =? nullptr) = false)
    by (apply Z.eqb_neq; apply Hm).
  assert (E2 : (mmap_reply drv fd width height =? MAP_FAILED) = false)
    by (apply Z.eqb_neq; exact Hmap).
  assert (E3 : (snd (register_reply drv fd width height) =? 0) = false)
    by (apply Z.eqb_neq; apply Hf).
  assert (E4 : (alloc_handle drv fd width height =? 0) = false)
    by (apply Z.eqb_neq; apply Hh).
  rewrite E1, E2, E3, E4. reflexivity.
Qed.

(** The calls of a run that got as far as the mode-set keep the stack
    discipline, with or without the wait in between. *)
Lemma lifo_bound (between : list call) :
  Forall (off_surface drv) between ->
  0 <= fst (alloc_reply drv fd width height) ->
  0 <= fst (register_reply drv fd width height) ->
  0 <= fst (map_reply drv fd width height) ->
  mmap_reply drv fd width height <> MAP_FAILED ->
  lifo drv
    ([call_alloc fd width height; call_register drv fd width height;
      call_map drv fd width height; call_mmap drv fd width height]
     ++ between
     ++ [call_munmap drv fd width height; call_rm_fb drv fd width height;
         call_destroy drv fd width height]) [] = Some [].
Proof.
  intros Hoff A B C D.
  rewrite (lifo_seq drv _ []
             [Mapping (mmap_reply drv fd width height)
                (alloc_size drv fd width height);
              Framebuffer fd (snd (register_reply drv fd width height));
              Buffer fd (alloc_handle drv fd width height)]).
  - rewrite (lifo_seq drv between _ _ _ (lifo_off drv between _ Hoff)).
    unfold call_munmap, call_rm_fb, call_destroy.
    cbn [lifo releases]. rewrite !resource_eqb_refl. reflexivity.
  - lifo_eval.
Qed.

End Balance.

Lemma count_surface_release self : count_cin_get (surface_release self) = 0%nat.
Proof.
  unfold surface_release, guarded.
  destruct (negb (DrmBuffer._mapped self =? nullptr)
            && negb (DrmBuffer._mapped self =? MAP_FAILED));
    destruct (negb (DrmBuffer._fb_id self =? 0));
    destruct (negb (DrmBuffer._handle self =? 0)); reflexivity.
Qed.

(** Every way through the scope of the buffer with defined behaviour:
    the calls made, whether they are balanced, and whether the program
    waited for the user. *)
Lemma scope_outcomes drv dev conn p w1 :
  DrmDevice._connector dev = Some conn ->
  let run := surface_scope drv dev p w1 in
  fst run = Undefined \/
  exists t,
    logged w1 (snd run) t /\
    (hands_out_nonzero drv -> lifo drv t [] = Some []) /\
    ((fst run = Ok tt /\ count_cin_get t = 1%nat /\
      w_stdout (snd run) = (w_stdout w1 ++ instruction p)%string) \/
     (exists e, fst run = Throw e /\ count_cin_get t = 0%nat /\
                w_stdout (snd run) = w_stdout w1)).
Proof.
  intros Hconn run. subst run.
  set (fd := DrmDevice._fd dev).
  set (width := hdisplay (DrmDevice._mode dev)).
  set (height := vdisplay (DrmDevice._mode dev)).
  destruct (lifo_cases drv fd width height) as [L1 [L2 [L3 [L4 _]]]].
  cbv zeta in L1, L2, L3, L4.
  destruct (ctor_cases drv fd width height w1)
    as [[A H]|[[A [B H]]|[[A [B [C H]]]|[[A [B [C [D H]]]]|[A [B [C [D H]]]]]]]];
    cbv zeta in H.
  1-4: right; rewrite (scope_surface_failed drv dev p w1 _ _ H);
    cbn [fst snd];
    eexists; split; [apply after_trace|];
    split; [intros _; auto|];
    right; eexists; split; [reflexivity|]; split; [reflexivity|];
    apply after_keeps.
  pose proof (scope_after_surface drv dev conn p w1 _ _ Hconn H) as Hs.
  cbv zeta in Hs. rewrite Hs. clear Hs.
  set (surf := live_surface drv fd width height).
  set (c_bind := call_bind dev conn (DrmBuffer._fb_id surf)).
  destruct (DrmBuffer.fill_defined surf); [right | left; reflexivity].
  destruct (bind_reply drv dev conn (DrmBuffer._fb_id surf) <? 0);
    cbn [fst snd].
  - exists ([call_alloc fd width height; call_register drv fd width height;
             call_map drv fd width height; call_mmap drv fd width height]
            ++ [c_bind] ++ surface_release surf).
    split; [|split].
    + unfold logged. rewrite !after_trace. unfold painted_world.
      cbn [snd DrmBuffer.fill_chessboard w_trace]. rewrite after_trace.
      rewrite <- !app_assoc. reflexivity.
    + intros Hnz. unfold surf.
      rewrite (surface_release_live drv fd width height Hnz D).
      apply lifo_bound; try assumption. repeat constructor.
    + right. eexists. split; [reflexivity|]. split.
      * rewrite !count_cin_get_app, count_surface_release. reflexivity.
      * destruct (after_keeps drv (surface_release surf)
                    (after drv (painted_world surf p
                       (after drv w1 [call_alloc fd width height;
                                      call_register drv fd width height;
                                      call_map drv fd width height;
                                      call_mmap drv fd width height]))
                       [c_bind])) as [E _].
        rewrite E. reflexivity.
  - exists ([call_alloc fd width height; call_register drv fd width height;
             call_map drv fd width height; call_mmap drv fd width height]
            ++ [c_bind; cin_get] ++ surface_release surf).
    split; [|split].
    + unfold logged. rewrite after_trace. unfold printed.
      cbn [snd cout w_trace]. rewrite after_trace. unfold painted_world.
      cbn [snd DrmBuffer.fill_chessboard w_trace]. rewrite after_trace.
      cbn [app]. rewrite <- !app_assoc. reflexivity.
    + intros Hnz. unfold surf.
      rewrite (surface_release_live drv fd width height Hnz D).
      apply lifo_bound; try assumption. repeat constructor.
    + left. split; [reflexivity|]. split.
      * rewrite !count_cin_get_app, count_surface_release. reflexivity.
      * match goal with
        | |- w_stdout (after drv ?x ?t) = _ =>
            destruct (after_keeps drv t x) as [E _]; rewrite E
        end.
        reflexivity.
Qed.

(** Calls before and after a balanced stretch that leave the surface
    alone change neither the balance nor the number of waits. *)
Lemma around_bystanders drv pre t post :
  Forall (bystander drv) pre -> Forall (bystander drv) post ->
  (lifo drv t [] = Some [] -> lifo drv (pre ++ t ++ post) [] = Some []) /\
  count_cin_get (pre ++ t ++ post) = count_cin_get t.
Proof.
  intros Hpre Hpost. split.
  - intros Ht.
    rewrite (lifo_seq drv pre [] [] _
               (lifo_off drv pre [] (bystanders_off drv pre Hpre))).
    rewrite (lifo_seq drv t [] [] _ Ht).
    apply lifo_off. apply bystanders_off. exact Hpost.
  - rewrite !count_cin_get_app.
    rewrite (count_cin_get_bystanders drv pre Hpre).
    rewrite (count_cin_get_bystanders drv post Hpost). lia.
Qed.

(** Every run of the [try] block with defined behaviour: the calls it
    makes, their balance, and whether it printed and waited. *)
Lemma core_outcomes drv p w :
  let run := core drv p w in
  fst run = Undefined \/
  exists t,
    logged w (snd run) t /\
    (hands_out_nonzero drv -> lifo drv t [] = Some []) /\
    ((fst run = Ok tt /\ count_cin_get t = 1%nat /\
      w_stdout (snd run) = (w_stdout w ++ instruction p)%string) \/
     (exists e, fst run = Throw e /\ count_cin_get t = 0%nat /\
                w_stdout (snd run) = w_stdout w)).
Proof.
  cbv zeta. set (fd := d_open drv "/dev/dri/card0" O_RDWR).
  destruct (Z.eq_dec fd (-1)) as [Hfd|Hfd].
  - right.
    assert (Hcore : core drv p w =
      (Throw (system_error
                (w_errno (after drv w [sys_open "/dev/dri/card0" O_RDWR]))
                "Failed to open file"),
       after drv w [sys_open "/dev/dri/card0" O_RDWR])).
    { unfold core. unfold bind at 1.
      rewrite (ctor_open_failed drv _ w Hfd). reflexivity. }
    rewrite Hcore. cbn [fst snd].
    exists [sys_open "/dev/dri/card0" O_RDWR].
    split; [apply after_trace|]. split; [intros _; reflexivity|].
    right. eexists. split; [reflexivity|]. split; [reflexivity|].
    apply after_keeps.
  - rewrite (core_opened drv p w Hfd). fold fd.
    set (w0 := after drv w [sys_open "/dev/dri/card0" O_RDWR]).
    assert (Hw0 : w_trace w0 = w_trace w ++ [sys_open "/dev/dri/card0" O_RDWR])
      by apply after_trace.
    assert (Hs0 : w_stdout w0 = w_stdout w) by apply after_keeps.
    assert (Hopen : Forall (bystander drv) [sys_open "/dev/dri/card0" O_RDWR])
      by (repeat constructor).
    destruct (initialize_passes_by drv (DrmDevice.fresh fd) w0)
      as [[[t1 [Ht1 Pt1]] Hout1] _].
    destruct (DrmDevice.initialize drv (DrmDevice.fresh fd) w0)
      as [[dev|e|] w1] eqn:Hinit; cbn [fst snd] in *.
    + pose proof (initialize_ok drv _ _ _ _ Hinit) as Hok.
      cbv zeta in Hok.
      destruct Hok as [res [conn [enc [more [pre [rest
        [_ [_ [_ [_ [_ [_ [_ [_ [Hdev _]]]]]]]]]]]]]]].
      assert (Hconn : DrmDevice._connector dev = Some conn)
        by (rewrite Hdev; reflexivity).
      fold (surface_scope drv dev p).
      destruct (scope_outcomes drv dev conn p w1 Hconn)
        as [Hu2|[t2 [Hlog2 [Hlifo2 Hres2]]]].
      { left. unfold finally.
        destruct (surface_scope drv dev p w1) as [[u|e|] w2];
          cbn [fst] in Hu2; try discriminate Hu2. reflexivity. }
      unfold logged in Hlog2. unfold finally.
      destruct (surface_scope drv dev p w1) as [[u|e|] w2];
        cbn [fst snd] in *; rewrite ?device_dtor_run; cbn [fst snd].
      * right.
        exists (([sys_open "/dev/dri/card0" O_RDWR] ++ t1)
                ++ t2 ++ device_release dev).
        destruct (around_bystanders drv
                    ([sys_open "/dev/dri/card0" O_RDWR] ++ t1) t2
                    (device_release dev)) as [Hl Hc];
          [apply Forall_app; split; assumption
          |apply device_release_bystanders|].
        split; [|split].
        -- unfold logged. fold (device_release dev).
           rewrite after_trace, Hlog2, Ht1, Hw0.
           rewrite <- !app_assoc. reflexivity.
        -- intros Hnz. apply Hl. apply Hlifo2. exact Hnz.
        -- destruct Hres2 as [[_ [Hcnt Hout]]|[e [He _]]]; [|discriminate].
           left. destruct u. split; [reflexivity|]. split; [lia|].
           fold (device_release dev).
           destruct (after_keeps drv (device_release dev) w2) as [E _].
           rewrite E, Hout, Hout1, Hs0. reflexivity.
      * right.
        exists (([sys_open "/dev/dri/card0" O_RDWR] ++ t1)
                ++ t2 ++ device_release dev).
        destruct (around_bystanders drv
                    ([sys_open "/dev/dri/card0" O_RDWR] ++ t1) t2
                    (device_release dev)) as [Hl Hc];
          [apply Forall_app; split; assumption
          |apply device_release_bystanders|].
        split; [|split].
        -- unfold logged. fold (device_release dev).
           rewrite after_trace, Hlog2, Ht1, Hw0.
           rewrite <- !app_assoc. reflexivity.
        -- intros Hnz. apply Hl. apply Hlifo2. exact Hnz.
        -- destruct Hres2 as [[He _]|[e0 [_ [Hcnt Hout]]]]; [discriminate|].
           right. exists e. split; [reflexivity|]. split; [lia|].
           fold (device_release dev).
           destruct (after_keeps drv (device_release dev) w2) as [E _].
           rewrite E, Hout, Hout1, Hs0. reflexivity.
      * left. reflexivity.
    + right. exists ([sys_open "/dev/dri/card0" O_RDWR] ++ t1 ++ [sys_close fd]).
      split; [|split].
      * unfold logged. rewrite after_trace, Ht1, Hw0.
        rewrite <- !app_assoc. reflexivity.
      * intros _. apply lifo_off. apply bystanders_off.
        apply Forall_app. split; [assumption|].
        apply Forall_app. split; [assumption | repeat constructor].
      * right. exists e. split; [reflexivity|]. split.
        -- apply (count_cin_get_bystanders drv).
           apply Forall_app. split; [assumption|].
           apply Forall_app. split; [assumption | repeat constructor].
        -- destruct (after_keeps drv [sys_close fd] w1) as [E _].
           rewrite E, Hout1, Hs0. reflexivity.
    + left. reflexivity.
Qed.

Ltac keep_streams :=
  repeat first [ rewrite (proj1 (after_keeps _ _ _))
               | rewrite (proj1 (proj2 (after_keeps _ _ _)))
               | rewrite (proj2 (proj2 (after_keeps _ _ _))) ].

(** X9.  When the controller is constructed, all four acquisition steps
    succeed, the mapping is not at address 0, the buffer described by
    the kernel holds the frame (the stride covers a row, the size covers
    all rows, the word index does not wrap) and the kernel accepts the
    mode-set, the run after
    construction is exactly: allocate a buffer of the mode's width and
    height at 32 bits per pixel, register it, request the map offset,
    map it, one mode-set binding the registered framebuffer to the
    controller's CRTC, connector and mode at origin (0, 0), one wait for
    input, then the releases of the surface and after them those of the
    controller.  The instruction line is printed once, nothing goes to
    standard error, the mapped memory holds the pattern, and [main]
    returns 0. *)
Theorem successful_run (drv : Driver) (p : bool) (w : world)
    (dev : DrmDevice.state) (w1 : world) (conn : drmModeConnector) :
  DrmDevice.ctor drv "/dev/dri/card0" w = (Ok dev, w1) ->
  DrmDevice._connector dev = Some conn ->
  let fd := DrmDevice._fd dev in
  let width := hdisplay (DrmDevice._mode dev) in
  let height := vdisplay (DrmDevice._mode dev) in
  let surf := live_surface drv fd width height in
  let c_bind := call_bind dev conn (DrmBuffer._fb_id surf) in
  0 <= fst (alloc_reply drv fd width height) ->
  0 <= fst (register_reply drv fd width height) ->
  0 <= fst (map_reply drv fd width height) ->
  mmap_reply drv fd width height <> MAP_FAILED ->
  mmap_reply drv fd width height <> nullptr ->
  0 <= alloc_pitch drv fd width height ->
  width <= alloc_pitch drv fd width height / 4 ->
  height * (alloc_pitch drv fd width height / 4) <= 2 ^ 32 ->
  alloc_pitch drv fd width height * height <= alloc_size drv fd width height ->
  0 <= bind_reply drv dev conn (DrmBuffer._fb_id surf) ->
  let run := core drv p w in
  fst run = Ok tt /\
  logged w1 (snd run)
    ([call_alloc fd width height; call_register drv fd width height;
      call_map drv fd width height; call_mmap drv fd width height;
      c_bind; cin_get]
     ++ surface_release surf ++ device_release dev) /\
  w_stdout (snd run) = (w_stdout w1 ++ instruction p)%string /\
  w_stderr (snd run) = w_stderr w1 /\
  w_pixels (snd run) = DrmBuffer.fill_pixels surf p (w_pixels w1) /\
  (forall argv, parse_args argv = Some p -> fst (main drv argv w) = Ok 0).
Proof.
  intros Hctor Hconn fd width height surf c_bind A B C D Hnull Hpitch Hw Hh Hsize
    E run.
  destruct (ctor_cases drv fd width height w1)
    as [[A' H]|[[_ [B' H]]|[[_ [_ [C' H]]]|[[_ [_ [_ [D' H]]]]|[_ [_ [_ [_ H]]]]]]]];
    cbv zeta in H; try lia; try contradiction.
  pose proof (scope_after_surface drv dev conn p w1 _ _ Hconn H) as Hs.
  cbv zeta in Hs. fold fd width height surf c_bind in Hs.
  rewrite (PatternMore.fill_defined_consistent surf Hnull D Hpitch Hw Hh Hsize)
    in Hs.
  apply Z.ltb_ge in E. rewrite E in Hs.
  assert (Hrun : run =
    (Ok tt,
     after drv
       (after drv
          (printed (instruction p)
             (after drv
                (painted_world surf p
                   (after drv w1
                      [call_alloc fd width height;
                       call_register drv fd width height;
                       call_map drv fd width height;
                       call_mmap drv fd width height]))
                [c_bind]))
          (cin_get :: surface_release surf))
       (device_release dev))).
  { subst run. rewrite (core_constructed drv p w dev w1 Hctor).
    unfold finally. rewrite Hs, device_dtor_run. reflexivity. }
  split; [rewrite Hrun; reflexivity|].
  split; [|split; [|split; [|split]]].
  - rewrite Hrun. cbn [snd]. unfold logged.
    rewrite !after_trace. unfold printed. cbn [snd cout w_trace].
    rewrite after_trace. unfold painted_world.
    cbn [snd DrmBuffer.fill_chessboard w_trace]. rewrite after_trace.
    cbn [app]. rewrite <- !app_assoc. reflexivity.
  - rewrite Hrun. cbn [snd]. keep_streams. unfold printed.
    cbn [snd cout w_stdout]. keep_streams. unfold painted_world.
    cbn [snd DrmBuffer.fill_chessboard w_stdout]. keep_streams. reflexivity.
  - rewrite Hrun. cbn [snd]. keep_streams. unfold printed.
    cbn [snd cout w_stderr]. keep_streams. unfold painted_world.
    cbn [snd DrmBuffer.fill_chessboard w_stderr]. keep_streams. reflexivity.
  - rewrite Hrun. cbn [snd]. keep_streams. unfold printed.
    cbn [snd cout w_pixels]. keep_streams. unfold painted_world.
    cbn [snd DrmBuffer.fill_chessboard w_pixels]. keep_streams. reflexivity.
  - intros argv Hp. rewrite (main_accepted drv argv p w Hp).
    fold run. rewrite Hrun. reflexivity.
Qed.

Lemma demo_device_constructed :
  DrmDevice.ctor (demo_driver no_failure) "/dev/dri/card0" boot
  = (Ok demo_device,
     snd (DrmDevice.ctor (demo_driver no_failure) "/dev/dri/card0" boot)).
Proof.
  rewrite (surjective_pairing
             (DrmDevice.ctor (demo_driver no_failure) "/dev/dri/card0" boot))
    at 1.
  f_equal.
Qed.

Lemma successful_run_witness :
  fst (core (demo_driver no_failure) true boot) = Ok tt /\
  fst (main (demo_driver no_failure) ["dp-alpha"; "p"]%string boot) = Ok 0.
Proof.
  destruct (successful_run (demo_driver no_failure) true boot demo_device _
              (demo_connector no_failure) demo_device_constructed eq_refl)
    as [Hok [_ [_ [_ [_ Hmain]]]]];
    try (apply Z.leb_le; reflexivity); try (intros E; discriminate E).
  split; [exact Hok | exact (Hmain ["dp-alpha"; "p"]%string eq_refl)].
Defined.

(** X10.  When the surface is constructed and holds the frame as in X9
    (mapping not at address 0, stride covering a row, size covering all
    rows, no index wrap) and the kernel rejects the mode-set,
    [set_crtc] throws with the [errno] the mode-set call left (it is
    read before any destructor runs).  Nothing is printed to standard output and the
    program does not wait; the surface, already painted, is released and
    after it the controller.  [main] reports the failure on standard
    error and returns -1. *)
Theorem bind_failure_run (drv : Driver) (p : bool) (w : world)
    (dev : DrmDevice.state) (w1 : world) (conn : drmModeConnector) :
  DrmDevice.ctor drv "/dev/dri/card0" w = (Ok dev, w1) ->
  DrmDevice._connector dev = Some conn ->
  let fd := DrmDevice._fd dev in
  let width := hdisplay (DrmDevice._mode dev) in
  let height := vdisplay (DrmDevice._mode dev) in
  let surf := live_surface drv fd width height in
  let c_bind := call_bind dev conn (DrmBuffer._fb_id surf) in
  let acquired := [call_alloc fd width height;
                   call_register drv fd width height;
                   call_map drv fd width height;
                   call_mmap drv fd width height] in
  0 <= fst (alloc_reply drv fd width height) ->
  0 <= fst (register_reply drv fd width height) ->
  0 <= fst (map_reply drv fd width height) ->
  mmap_reply drv fd width height <> MAP_FAILED ->
  mmap_reply drv fd width height <> nullptr ->
  0 <= alloc_pitch drv fd width height ->
  width <= alloc_pitch drv fd width height / 4 ->
  height * (alloc_pitch drv fd width height / 4) <= 2 ^ 32 ->
  alloc_pitch drv fd width height * height <= alloc_size drv fd width height ->
  bind_reply drv dev conn (DrmBuffer._fb_id surf) < 0 ->
  let run := core drv p w in
  let e := system_error
             (d_errno drv c_bind (w_errno (after drv w1 acquired)))
             "Failed to set CRTC" in
  fst run = Throw e /\
  logged w1 (snd run)
    (acquired ++ [c_bind] ++ surface_release surf ++ device_release dev) /\
  w_stdout (snd run) = w_stdout w1 /\
  w_pixels (snd run) = DrmBuffer.fill_pixels surf p (w_pixels w1) /\
  (forall argv, parse_args argv = Some p ->
     fst (main drv argv w) = Ok (-1) /\
     w_stderr (snd (main drv argv w))
     = (w_stderr w1 ++ "Error: " ++ what drv e ++ endl)%string).
Proof.
  intros Hctor Hconn fd width height surf c_bind acquired A B C D Hnull Hpitch Hw
    Hh Hsize E run e.
  destruct (ctor_cases drv fd width height w1)
    as [[A' H]|[[_ [B' H]]|[[_ [_ [C' H]]]|[[_ [_ [_ [D' H]]]]|[_ [_ [_ [_ H]]]]]]]];
    cbv zeta in H; try lia; try contradiction.
  pose proof (scope_after_surface drv dev conn p w1 _ _ Hconn H) as Hs.
  cbv zeta in Hs. fold fd width height surf c_bind acquired in Hs.
  rewrite (PatternMore.fill_defined_consistent surf Hnull D Hpitch Hw Hh Hsize)
    in Hs.
  apply Z.ltb_lt in E. rewrite E in Hs.
  assert (Hrun : run =
    (Throw e,
     after drv
       (after drv
          (after drv (painted_world surf p (after drv w1 acquired)) [c_bind])
          (surface_release surf))
       (device_release dev))).
  { subst run. rewrite (core_constructed drv p w dev w1 Hctor).
    unfold finally. rewrite Hs, device_dtor_run. reflexivity. }
  split; [rewrite Hrun; reflexivity|].
  split; [|split; [|split]].
  - rewrite Hrun. cbn [snd]. unfold logged.
    rewrite !after_trace. unfold painted_world.
    cbn [snd DrmBuffer.fill_chessboard w_trace]. rewrite after_trace.
    rewrite <- !app_assoc. reflexivity.
  - rewrite Hrun. cbn [snd]. keep_streams. unfold painted_world.
    cbn [snd DrmBuffer.fill_chessboard w_stdout]. keep_streams. reflexivity.
  - rewrite Hrun. cbn [snd]. keep_streams. unfold painted_world.
    cbn [snd DrmBuffer.fill_chessboard w_pixels]. keep_streams. reflexivity.
  - intros argv Hp. rewrite (main_accepted drv argv p w Hp).
    fold run. rewrite Hrun. split; [reflexivity|].
    cbn [snd cerr w_stderr]. keep_streams. unfold painted_world.
    cbn [snd DrmBuffer.fill_chessboard w_stderr]. keep_streams. reflexivity.
Qed.

Lemma demo_device_constructed_bind :
  DrmDevice.ctor (demo_driver fail_bind) "/dev/dri/card0" boot
  = (Ok {| DrmDevice._fd := 3;
           DrmDevice._connector := Some (demo_connector fail_bind);
           DrmDevice._encoder := Some (demo_encoder fail_bind);
           DrmDevice._resources := Some demo_resources;
           DrmDevice._mode := demo_mode;
           DrmDevice._crtc_id := 38 |},
     snd (DrmDevice.ctor (demo_driver fail_bind) "/dev/dri/card0" boot)).
Proof.
  rewrite (surjective_pairing
             (DrmDevice.ctor (demo_driver fail_bind) "/dev/dri/card0" boot))
    at 1.
  f_equal.
Qed.

Lemma bind_failure_run_witness :
  fst (core (demo_driver fail_bind) false boot)
    = Throw (system_error EINVAL "Failed to set CRTC") /\
  fst (main (demo_driver fail_bind) ["dp-alpha"; "s"]%string boot) = Ok (-1).
Proof.
  destruct (bind_failure_run (demo_driver fail_bind) false boot _ _
              (demo_connector fail_bind) demo_device_constructed_bind eq_refl)
    as [Hthrow [_ [_ [_ Hmain]]]];
    try (apply Z.leb_le; reflexivity); try (intros E; discriminate E).
  - apply Z.ltb_lt. reflexivity.
  - split; [exact Hthrow|].
    exact (proj1 (Hmain ["dp-alpha"; "s"]%string eq_refl)).
Defined.

(** X11.  With a kernel that never hands out 0 as a buffer handle or
    framebuffer id and never maps at address 0, every run of [main] with
    an accepted argument and defined behaviour is balanced: replayed on
    a stack of held surface resources, each release names the resource
    acquired last, and at the end nothing is held -- whether the run
    succeeds, discovery fails, an acquisition step fails or the
    mode-set is rejected. *)
Theorem run_releases_surface (drv : Driver) (argv : list string) (p : bool)
    (w : world) :
  hands_out_nonzero drv ->
  parse_args argv = Some p ->
  fst (main drv argv w) <> Undefined ->
  exists t,
    logged w (snd (main drv argv w)) t /\ lifo drv t [] = Some [].
Proof.
  intros Hnz Hp Hdef.
  destruct (main_trace drv argv p w Hp) as [Htr Hund].
  destruct (core_outcomes drv p w) as [Hu|[t [Hlog [Hlifo _]]]].
  - exfalso. apply Hdef. apply Hund. exact Hu.
  - exists t. split; [|exact (Hlifo Hnz)].
    unfold logged in *. rewrite Htr. exact Hlog.
Qed.

Lemma demo_hands_out_nonzero : hands_out_nonzero (demo_driver fail_bind).
Proof.
  repeat split; intros; cbn; discriminate.
Qed.

Lemma run_releases_surface_witness :
  exists t,
    logged boot (snd (main (demo_driver fail_bind) ["dp-alpha"; "s"]%string boot)) t /\
    lifo (demo_driver fail_bind) t [] = Some [].
Proof.
  apply (run_releases_surface (demo_driver fail_bind)
           ["dp-alpha"; "s"]%string false boot demo_hands_out_nonzero eq_refl).
  intros H. vm_compute in H. discriminate H.
Defined.

(** X12.  In a run of [main] with an accepted argument and defined
    behaviour, the instruction line is printed and the program waits for
    input -- once each -- exactly when everything succeeded and [main]
    returns 0.  When [main] returns -1 it has printed nothing to
    standard output and has not waited. *)
Theorem waits_only_after_binding (drv : Driver) (argv : list string)
    (p : bool) (w : world) :
  parse_args argv = Some p ->
  let run := main drv argv w in
  fst run = Undefined \/
  exists t,
    logged w (snd run) t /\
    ((fst run = Ok 0 /\ count_cin_get t = 1%nat /\
      w_stdout (snd run) = (w_stdout w ++ instruction p)%string) \/
     (fst run = Ok (-1) /\ count_cin_get t = 0%nat /\
      w_stdout (snd run) = w_stdout w)).
Proof.
  intros Hp run. subst run. rewrite (main_accepted drv argv p w Hp).
  destruct (core_outcomes drv p w) as [Hu|[t [Hlog [_ Hres]]]].
  - left. destruct (core drv p w) as [[u|e|] w1]; cbn [fst] in Hu;
      try discriminate. reflexivity.
  - right. exists t.
    destruct (core drv p w) as [[u|e|] w1]; cbn [fst snd] in *.
    + split; [exact Hlog|]. left.
      destruct Hres as [[_ [Hc Hs]]|[e [He _]]]; [|discriminate]. auto.
    + split; [exact Hlog|]. right.
      destruct Hres as [[He _]|[e0 [_ [Hc Hs]]]]; [discriminate|]. auto.
    + destruct Hres as [[He _]|[e0 [He _]]]; discriminate.
Qed.

Lemma waits_only_after_binding_witness :
  exists t,
    logged boot
      (snd (main (demo_driver fail_mmap) ["dp-alpha"; "p"]%string boot)) t /\
    count_cin_get t = 0%nat /\
    w_stdout (snd (main (demo_driver fail_mmap) ["dp-alpha"; "p"]%string boot))
    = EmptyString.
Proof.
  destruct (waits_only_after_binding (demo_driver fail_mmap)
              ["dp-alpha"; "p"]%string true boot eq_refl)
    as [Hu|[t [Hlog [[H0 _]|[_ [Hc Hs]]]]]].
  - vm_compute in Hu. discriminate Hu.
  - vm_compute in H0. discriminate H0.
  - exists t. split; [exact Hlog|]. split; [exact Hc | exact Hs].
Defined.

(** X13.  The fill tests neither the pointer nor the size.  When the
    surface is constructed but the store for some coordinate of the
    frame misses the mapping -- the mapping is at address 0, or the
    size the kernel reported ends before that word -- the run has
    undefined behaviour at the fill, and so has [main]. *)
Theorem fill_outside_mapping (drv : Driver) (p : bool) (w : world)
    (dev : DrmDevice.state) (w1 : world) (conn : drmModeConnector)
    (x y : Z) :
  DrmDevice.ctor drv "/dev/dri/card0" w = (Ok dev, w1) ->
  DrmDevice._connector dev = Some conn ->
  let fd := DrmDevice._fd dev in
  let width := hdisplay (DrmDevice._mode dev) in
  let height := vdisplay (DrmDevice._mode dev) in
  let surf := live_surface drv fd width height in
  0 <= fst (alloc_reply drv fd width height) ->
  0 <= fst (register_reply drv fd width height) ->
  0 <= fst (map_reply drv fd width height) ->
  mmap_reply drv fd width height <> MAP_FAILED ->
  0 <= x < width -> 0 <= y < height ->
  (mmap_reply drv fd width height = nullptr \/
   alloc_size drv fd width height < 4 * DrmBuffer.pixel_index surf x y + 4) ->
  fst (core drv p w) = Undefined /\
  (forall argv, parse_args argv = Some p ->
     fst (main drv argv w) = Undefined).
Proof.
  intros Hctor Hconn fd width height surf A B C D Hx Hy Hmiss.
  destruct (ctor_cases drv fd width height w1)
    as [[A' H]|[[_ [B' H]]|[[_ [_ [C' H]]]|[[_ [_ [_ [D' H]]]]|[_ [_ [_ [_ H]]]]]]]];
    cbv zeta in H; try lia; try contradiction.
  pose proof (scope_after_surface drv dev conn p w1 _ _ Hconn H) as Hs.
  cbv zeta in Hs. fold fd width height surf in Hs.
  assert (Hout : DrmBuffer.in_mapping surf (DrmBuffer.pixel_index surf x y)
                 = false).
  { unfold DrmBuffer.in_mapping.
    change (DrmBuffer._mapped surf) with (mmap_reply drv fd width height).
    change (DrmBuffer._size surf) with (alloc_size drv fd width height).
    destruct Hmiss as [Hnull|Hshort].
    - rewrite Hnull. reflexivity.
    - apply Z.leb_gt in Hshort. rewrite Hshort. apply andb_false_r. }
  rewrite (PatternMore.fill_defined_miss surf x y Hx Hy Hout) in Hs.
  assert (Hcore : fst (core drv p w) = Undefined).
  { rewrite (core_constructed drv p w dev w1 Hctor).
    unfold finally. rewrite Hs. reflexivity. }
  split; [exact Hcore|].
  intros argv Hp. apply (proj2 (main_trace drv argv p w Hp)). exact Hcore.
Qed.

Lemma null_mapping_constructed :
  DrmDevice.ctor null_mapping_driver "/dev/dri/card0" boot
  = (Ok demo_device,
     snd (DrmDevice.ctor null_mapping_driver "/dev/dri/card0" boot)).
Proof.
  rewrite (surjective_pairing
             (DrmDevice.ctor null_mapping_driver "/dev/dri/card0" boot))
    at 1.
  f_equal.
Qed.

Lemma short_buffer_constructed :
  DrmDevice.ctor short_buffer_driver "/dev/dri/card0" boot
  = (Ok demo_device,
     snd (DrmDevice.ctor short_buffer_driver "/dev/dri/card0" boot)).
Proof.
  rewrite (surjective_pairing
             (DrmDevice.ctor short_buffer_driver "/dev/dri/card0" boot))
    at 1.
  f_equal.
Qed.

Lemma fill_outside_mapping_witness :
  fst (main null_mapping_driver ["dp-alpha"; "p"]%string boot) = Undefined /\
  fst (main short_buffer_driver ["dp-alpha"; "s"]%string boot) = Undefined.
Proof.
  split.
  - destruct (fill_outside_mapping null_mapping_driver true boot demo_device _
                (demo_connector no_failure) 0 0
                null_mapping_constructed eq_refl)
      as [_ Hmain];
      try (apply Z.leb_le; reflexivity); try (intros E; discriminate E).
    + split; [apply Z.leb_le | apply Z.ltb_lt]; reflexivity.
    + split; [apply Z.leb_le | apply Z.ltb_lt]; reflexivity.
    + left. reflexivity.
    + exact (Hmain ["dp-alpha"; "p"]%string eq_refl).
  - destruct (fill_outside_mapping short_buffer_driver false boot demo_device _
                (demo_connector no_failure) 0 8
                short_buffer_constructed eq_refl)
      as [_ Hmain];
      try (apply Z.leb_le; reflexivity); try (intros E; discriminate E).
    + split; [apply Z.leb_le | apply Z.ltb_lt]; reflexivity.
    + split; [apply Z.leb_le | apply Z.ltb_lt]; reflexivity.
    + right. apply Z.ltb_lt. reflexivity.
    + exact (Hmain ["dp-alpha"; "s"]%string eq_refl).
Defined.
